(** * pdfkiwi: the page arrangement and the export pipeline

  A shallow embedding of [pdfkiwi.py]: the [PageList] widget (removal of
  the selection, relocation on drop, the drop planner) and
  [MainWindow.create_pdf] (split every page out, merge, clean up). *)

From Stdlib Require Import ZArith String Ascii DecimalString DecimalN.
From stdpp Require Import base decidable option list sorting gmap strings.

Local Open Scope Z_scope.

(** ** The rows of a QListWidget

  A [QListWidget] holds its items in rows [0 .. count-1]; the model is the
  list of items.  Rows and counters are Python integers. *)

Module PageList.

Section Rows.
Context {A : Type}.

(** [QListWidget.takeItem(row)]: Qt returns a null item and leaves the
    widget alone when [row] is outside [0 .. count-1]; otherwise the item
    is removed from the rows and handed back. *)
Definition takeItem (row : Z) (l : list A) : option A * list A :=
  if bool_decide (0 ≤ row < Z.of_nat (length l))
  then (l !! Z.to_nat row, delete (Z.to_nat row) l)
  else (None, l).

(** [QListWidget.insertItem(row, item)]: a null item is not inserted; Qt's
    list model clamps [row] into [0 .. count]. *)
Definition insertItem (row : Z) (it : option A) (l : list A) : list A :=
  match it with
  | None => l
  | Some x =>
      let r := Z.to_nat (Z.min (Z.max row 0) (Z.of_nat (length l))) in
      take r l ++ x :: drop r l
  end.

(** [sorted({i.row() for i in self.selectedIndexes()})]: the selected rows
    as a set, listed in increasing order. *)
Definition sorted_rows (sel : gset nat) : list nat :=
  merge_sort (≤)%nat (elements sel).

(** [remove_selected] (and, line for line, [MainWindow._trash_from_list]):
<<
    rows = sorted({i.row() for i in self.selectedIndexes()}, reverse=True)
    for r in rows:
        it = self.takeItem(r)
        del it
>>  *)
Definition remove_selected (sel : gset nat) (l : list A) : list A :=
  foldl (fun acc r => snd (takeItem (Z.of_nat r) acc)) l (reverse (sorted_rows sel)).

Definition _trash_from_list (sel : gset nat) (l : list A) : list A :=
  foldl (fun acc r => snd (takeItem (Z.of_nat r) acc)) l (reverse (sorted_rows sel)).

(** [items = [self.takeItem(r - k) for k, r in enumerate(selected_rows)]] *)
Fixpoint take_rows (k : Z) (rows : list nat) (l : list A)
  : list (option A) * list A :=
  match rows with
  | [] => ([], l)
  | r :: rows' =>
      let '(it, l1) := takeItem (Z.of_nat r - k) l in
      let '(its, l2) := take_rows (k + 1) rows' l1 in
      (it :: its, l2)
  end.

(** [removed_before = sum(1 for r in selected_rows if r < insert_at)] *)
Definition removed_before (rows : list nat) (insert_at : Z) : Z :=
  Z.of_nat (length (filter (fun r => Z.of_nat r < insert_at) rows)).

(** [for i, it in enumerate(items): self.insertItem(insert_at + i, it)] *)
Fixpoint insert_items (insert_at i : Z) (items : list (option A)) (l : list A)
  : list A :=
  match items with
  | [] => l
  | it :: items' => insert_items insert_at (i + 1) items' (insertItem (insert_at + i) it l)
  end.

(** What a drop does to the rows: either the event is passed on to
    [QListWidget.dropEvent] (no drop index, or nothing selected), or the
    selection is relocated. *)
Inductive drop_outcome :=
| PassedToBase
| Relocated (rows : list A).

Definition dropEvent (_drop_index : option Z) (sel : gset nat) (l : list A)
  : drop_outcome :=
  match _drop_index with
  | None => PassedToBase
  | Some drop_index =>
      let selected_rows := sorted_rows sel in
      match selected_rows with
      | [] => PassedToBase
      | _ =>
          let '(items, l1) := take_rows 0 selected_rows l in
          let insert_at := drop_index in
          let insert_at := insert_at - removed_before selected_rows insert_at in
          Relocated (insert_items insert_at 0 items l1)
      end
  end.

(** *** The contract of the arrangement, in the words of its description *)

(** The items of [l] whose index (counted from [i]) satisfies [p], in
    their original order. *)
Fixpoint restrict_from (p : nat → bool) (i : nat) (l : list A) : list A :=
  match l with
  | [] => []
  | x :: l' => if p i then x :: restrict_from p (S i) l' else restrict_from p (S i) l'
  end.

(** Step 1 of a relocation: the items at the selected indices. *)
Definition extracted (sel : gset nat) (l : list A) : list A :=
  restrict_from (fun i => bool_decide (i ∈ sel)) 0 l.

(** The sequence restricted to the indices outside the set. *)
Definition remaining (sel : gset nat) (l : list A) : list A :=
  restrict_from (fun i => bool_decide (i ∉ sel)) 0 l.

(** Step 2: [targetIndex - |{i in selected : i < targetIndex}|]. *)
Definition adjustedTarget (sel : gset nat) (targetIndex : Z) : Z :=
  targetIndex - Z.of_nat (size (filter (fun i => Z.of_nat i < targetIndex) sel)).

(** Step 3: the block put back in one piece at a position of the rest. *)
Definition reinsert_at (pos : Z) (block rest : list A) : list A :=
  take (Z.to_nat pos) rest ++ block ++ drop (Z.to_nat pos) rest.

Definition relocate_two_phase (sel : gset nat) (targetIndex : Z) (l : list A)
  : list A :=
  reinsert_at (adjustedTarget sel targetIndex) (extracted sel l) (remaining sel l).

End Rows.

(** Membership in a list of rows, as index predicates. *)
Definition on_rows (rows : list nat) (j : nat) : bool := bool_decide (j ∈ rows).
Definition off_rows (rows : list nat) (j : nat) : bool := bool_decide (j ∉ rows).

End PageList.

(** ** The drop planner: [PageList._compute_drop_position] *)

Module Planner.

(** [QRect] keeps the coordinates of its corners; [QRect(x, y, w, h)]
    spans [x .. x+w-1] and [y .. y+h-1]. *)
Record QRect := mkRect { x1 : Z; y1 : Z; x2 : Z; y2 : Z }.

Definition QRect_xywh (x y w h : Z) : QRect :=
  {| x1 := x; y1 := y; x2 := x + w - 1; y2 := y + h - 1 |}.

Definition left (r : QRect) : Z := x1 r.
Definition top (r : QRect) : Z := y1 r.
Definition right (r : QRect) : Z := x2 r.
Definition bottom (r : QRect) : Z := y2 r.

(** [rect.center().x()]: Qt computes [(x1 + x2) / 2] with the division of
    C++, which rounds towards zero. *)
Definition center_x (r : QRect) : Z := Z.quot (x1 r + x2 r) 2.

Record QPoint := mkPoint { px : Z; py : Z }.

(** [self.setSpacing(10)] in [PageList.__init__]. *)
Definition default_spacing : Z := 10.

(** [tol_y = max(6, self.spacing())] *)
Definition tol_y (spacing : Z) : Z := Z.max 6 spacing.

(** [r.top() - tol_y <= pos.y() <= r.bottom() + tol_y] *)
Definition in_row_span (spacing : Z) (pos : QPoint) (r : QRect) : bool :=
  (top r - tol_y spacing <=? py pos) && (py pos <=? bottom r + tol_y spacing).

(** The loop collecting [row]: the pairs [(i, r)] of the items whose span
    holds the pointer, for [i] counting up from [i0]. *)
Fixpoint collect_row (spacing : Z) (pos : QPoint) (i0 : nat) (rects : list QRect)
  : list (nat * QRect) :=
  match rects with
  | [] => []
  | r :: rects' =>
      if in_row_span spacing pos r
      then (i0, r) :: collect_row spacing pos (S i0) rects'
      else collect_row spacing pos (S i0) rects'
  end.

(** [row.sort(key=lambda t: t[1].left())]: Python's sort is stable, so the
    outcome is the one of a stable insertion sort on the key. *)
Fixpoint insert_by_left (e : nat * QRect) (row : list (nat * QRect))
  : list (nat * QRect) :=
  match row with
  | [] => [e]
  | e' :: row' =>
      if left (snd e) <=? left (snd e') then e :: e' :: row'
      else e' :: insert_by_left e row'
  end.

Fixpoint sort_by_left (row : list (nat * QRect)) : list (nat * QRect) :=
  match row with
  | [] => []
  | e :: row' => insert_by_left e (sort_by_left row')
  end.

(** The walk over the sorted row:
<<
    for idx, rect in row:
        cx = rect.center().x()
        if pos.x() < cx:
            return idx, rect, True
>>  *)
Fixpoint walk_row (pos : QPoint) (row : list (nat * QRect))
  : option (nat * QRect * bool) :=
  match row with
  | [] => None
  | (idx, rect) :: row' =>
      if px pos <? center_x rect then Some (idx, rect, true)
      else walk_row pos row'
  end.

(** [_compute_drop_position(pos)], the geometry being the list of the
    [visualItemRect] of the items [0 .. count-1].  The result is
    [(index, rect, before)]. *)
Definition _compute_drop_position (spacing : Z) (rects : list QRect) (pos : QPoint)
  : nat * QRect * bool :=
  let count := length rects in
  match rects with
  | [] => (0%nat, QRect_xywh 12 12 40 80, true)
  | first_rect :: _ =>
      let row := collect_row spacing pos 0 rects in
      match row with
      | [] =>
          let last_rect := List.last rects first_rect in
          if py pos <? top first_rect then (0%nat, first_rect, true)
          else ((count - 1)%nat, last_rect, false)
      | e0 :: _ =>
          let row := sort_by_left row in
          match walk_row pos row with
          | Some res => res
          | None =>
              let '(last_idx, last_rect) := List.last row e0 in
              (last_idx, last_rect, false)
          end
      end
  end.

(** [dragMoveEvent]: the planner always hands back a rectangle, so the
    drop index is [idx] when the marker is on the left and [idx + 1]
    otherwise. *)
Definition dragMoveEvent (spacing : Z) (rects : list QRect) (pos : QPoint)
  : option Z :=
  let '(idx, _, before) := _compute_drop_position spacing rects pos in
  Some (if before then Z.of_nat idx else Z.of_nat idx + 1).

(** *** The planner's rule, as described *)

(** The active row: the indices of the items whose tolerance-expanded
    span holds the pointer's y-coordinate. *)
Definition in_active_row (spacing : Z) (rects : list QRect) (pos : QPoint)
    (i : nat) : Prop :=
  ∃ r, rects !! i = Some r ∧ in_row_span spacing pos r = true.

(** Left-to-right order of two items of a row: by left edge, and by index
    among items that share a left edge. *)
Definition left_of (rects : list QRect) (i j : nat) : Prop :=
  ∃ ri rj, rects !! i = Some ri ∧ rects !! j = Some rj ∧
    (left ri < left rj ∨ (left ri = left rj ∧ (i < j)%nat)).

(** Order of the entries [(index, rect)] of a row from left to right. *)
Definition entry_lt (e e' : nat * QRect) : Prop :=
  left (snd e) < left (snd e')
  ∨ (left (snd e) = left (snd e') ∧ (fst e < fst e')%nat).

(** [i] is the first item of the active row, from left to right, whose
    horizontal center lies strictly right of the pointer. *)
Definition first_past_pointer (spacing : Z) (rects : list QRect) (pos : QPoint)
    (i : nat) : Prop :=
  in_active_row spacing rects pos i ∧
  (∃ r, rects !! i = Some r ∧ px pos < center_x r) ∧
  ∀ j r, in_active_row spacing rects pos j → rects !! j = Some r →
         px pos < center_x r → j = i ∨ left_of rects i j.

(** [i] is the rightmost item of the active row. *)
Definition rightmost_of_row (spacing : Z) (rects : list QRect) (pos : QPoint)
    (i : nat) : Prop :=
  in_active_row spacing rects pos i ∧
  ∀ j, in_active_row spacing rects pos j → j = i ∨ left_of rects j i.

(** The target of the planner: the index and the side of the marker. *)
Definition target (res : nat * QRect * bool) : nat * bool :=
  (fst (fst res), snd res).

End Planner.

(** ** The export pipeline: [MainWindow.create_pdf] *)

Module ExportPipeline.

Local Open Scope string_scope.

Record PageRef := mkPageRef { src_path : string; page_index : Z }.

(** The newline of the Python literals. *)
Definition nl : string := String (ascii_of_nat 10) EmptyString.

(** [str(n)] for a Python integer. *)
Definition str (n : Z) : string := NilZero.string_of_int (Z.to_int n).

Fixpoint zeros (n : nat) : string :=
  match n with
  | O => ""
  | S n' => String "0" (zeros n')
  end.

(** [f"{idx:05d}"]: the sign, then zeros up to a width of five, then the
    digits; a longer number is written out in full. *)
Definition format_05d (idx : Z) : string :=
  let digits := NilZero.string_of_uint (N.to_uint (Z.abs_N idx)) in
  if (idx <? 0)%Z
  then String "-" (zeros (4 - String.length digits)%nat ++ digits)
  else zeros (5 - String.length digits)%nat ++ digits.

(** [f"part_{idx:05d}.pdf"] *)
Definition part_name (idx : Z) : string := "part_" ++ format_05d idx ++ ".pdf".

(** [os.path.join(tmpdir, name)] for the directory that [mkdtemp] names
    (no trailing separator) and a relative file name. *)
Definition path_join (dir name : string) : string := dir ++ "/" ++ name.

Fixpoint has_slash (s : string) : bool :=
  match s with
  | EmptyString => false
  | String c s' => Ascii.eqb c "/" || has_slash s'
  end.

(** [os.path.basename]: what follows the last separator. *)
Fixpoint basename (s : string) : string :=
  match s with
  | EmptyString => EmptyString
  | String c s' =>
      if has_slash s' then basename s'
      else if Ascii.eqb c "/" then s' else s
  end.

(** A file lies in the tree of [dir]. *)
Definition in_dir (dir path : string) : bool := String.prefix (dir ++ "/") path.

(** *** The world outside the program *)

(** What [subprocess.run] gives back for one of the two poppler tools:
    the return code, the text of stderr, and what is found at the
    destination path of the command once it has ended ([None]: no file
    there).  The tools write nowhere else. *)
Record completed := mkCompleted {
  returncode : Z;
  stderr : string;
  at_destination : option string
}.

(** [subprocess.run(cmd, stdout=PIPE, stderr=PIPE, text=True)] either
    returns, or raises: the program cannot be started, the argument list
    is too long, what the program printed does not decode.  [Raised]
    carries [str(ex)] and what is found at the destination path then. *)
Inductive ran :=
| Returned (r : completed)
| Raised (ex : string) (remains : option string).

Definition left_behind (o : ran) : option string :=
  match o with
  | Returned r => at_destination r
  | Raised _ remains => remains
  end.

Record Env := mkEnv {
  (** [shutil.which(cmd) is not None] *)
  command_exists : string → bool;
  (** the path picked in [QFileDialog.getSaveFileName]; empty when the
      dialog is dismissed *)
  getSaveFileName : string;
  (** the directory made by [tempfile.TemporaryDirectory(prefix="pdfkiwi_")];
      the making of the directory and its removal are taken to succeed *)
  mkdtemp : string;
  (** [subprocess.run(cmd, ...)] *)
  subprocess_run : list string → ran
}.

Inductive event :=
| InfoBox (title text : string)
| ErrorBox (title text : string)
| Which (cmd : string)
| SaveDialog
| MakeTempDir (dir : string)
| Run (cmd : list string)
| RemoveTree (dir : string).

(** The files on disk (path to content) and the record of what the
    program did to the outside, oldest first. *)
Record world := mkWorld {
  files : gmap string string;
  log : list event
}.

Definition emit (e : event) (w : world) : world :=
  {| files := files w; log := log w ++ [e] |}.

Definition info_box (title text : string) : world → world := emit (InfoBox title text).
Definition error_box (title text : string) : world → world := emit (ErrorBox title text).

(** Running a tool: the call is recorded, and the destination (the last
    word of the command) holds what the tool left there. *)
Definition run (env : Env) (cmd : list string) (w : world) : ran * world :=
  let r := subprocess_run env cmd in
  let dest := List.last cmd "" in
  (r, {| files := match left_behind r with
                  | Some c => <[dest := c]> (files w)
                  | None => delete dest (files w)
                  end;
         log := log w ++ [Run cmd] |}).

(** [os.path.exists] *)
Definition path_exists (p : string) (w : world) : bool :=
  bool_decide (is_Some (files w !! p)).

(** Leaving the [with tempfile.TemporaryDirectory(...)] block removes the
    directory with all that is in it, on a normal exit and on an
    exception alike. *)
Definition cleanup (dir : string) (w : world) : world :=
  {| files := filter (fun kv => in_dir dir (fst kv) = false) (files w);
     log := log w ++ [RemoveTree dir] |}.

Definition separate_cmd (pr : PageRef) (single_path : string) : list string :=
  ["pdfseparate"; "-f"; str (page_index pr + 1); "-l"; str (page_index pr + 1);
   src_path pr; single_path]%list.

Definition unite_cmd (part_files : list string) (out_path : string) : list string :=
  ("pdfunite" :: part_files ++ [out_path])%list.

Definition separate_failure (pr : PageRef) (r : completed) : string :=
  "pdfseparate failed for " ++ basename (src_path pr) ++ " page "
    ++ str (page_index pr + 1) ++ nl ++ stderr r.

Definition unite_failure (r : completed) : string :=
  "pdfunite failed:" ++ nl ++ stderr r.

(** The loop over [enumerate(pages, start=1)]; [inl] carries the text of
    the exception that ends it: the [RuntimeError] that the loop raises,
    or the exception of [subprocess.run]. *)
Fixpoint separate_all (env : Env) (tmpdir : string) (idx : Z)
    (pages : list PageRef) (part_files : list string) (w : world)
  : (string + list string) * world :=
  match pages with
  | [] => (inr part_files, w)
  | pr :: pages' =>
      let single_path := path_join tmpdir (part_name idx) in
      let cmd := separate_cmd pr single_path in
      let '(o, w1) := run env cmd w in
      match o with
      | Raised ex _ => (inl ex, w1)
      | Returned r =>
          if negb (returncode r =? 0)%Z || negb (path_exists single_path w1)
          then (inl (separate_failure pr r), w1)
          else separate_all env tmpdir (idx + 1) pages'
                 (part_files ++ [single_path])%list w1
      end
  end.

(** The body of the [with] block. *)
Definition with_tmpdir (env : Env) (tmpdir out_path : string)
    (pages : list PageRef) (w : world) : (string + unit) * world :=
  match separate_all env tmpdir 1 pages [] w with
  | (inl msg, w1) => (inl msg, w1)
  | (inr part_files, w1) =>
      let cmd := unite_cmd part_files out_path in
      let '(o, w2) := run env cmd w1 in
      match o with
      | Raised ex _ => (inl ex, w2)
      | Returned r =>
          if negb (returncode r =? 0)%Z then (inl (unite_failure r), w2)
          else (inr tt, w2)
      end
  end.

Definition missing_tools_text : string :=
  "This app uses `pdfseparate` and `pdfunite` (poppler-utils)." ++ nl
    ++ "Install them, e.g.: sudo apt install poppler-utils".

(** [create_pdf], given the pages gathered from the list widget. *)
Definition create_pdf (env : Env) (pages : list PageRef) (w : world) : world :=
  match pages with
  | [] => info_box "Nothing to export" "Add pages first." w
  | _ =>
      let w := emit (Which "pdfseparate") w in
      if negb (command_exists env "pdfseparate") then
        error_box "Missing tools" missing_tools_text w
      else
        let w := emit (Which "pdfunite") w in
        if negb (command_exists env "pdfunite") then
          error_box "Missing tools" missing_tools_text w
        else
          let w := emit SaveDialog w in
          let out_path := getSaveFileName env in
          if String.eqb out_path "" then w
          else
            let tmpdir := mkdtemp env in
            let w := emit (MakeTempDir tmpdir) w in
            let '(res, w) := with_tmpdir env tmpdir out_path pages w in
            let w := cleanup tmpdir w in
            match res with
            | inr _ => info_box "Done" ("Created:" ++ nl ++ out_path) w
            | inl msg => error_box "Export error" msg w
            end
  end.

(** *** Words of the description *)

(** The temporary file of the [k]-th page of the sequence (from 0). *)
Definition part_path (tmpdir : string) (k : nat) : string :=
  path_join tmpdir (part_name (Z.of_nat k + 1)).

(** The command that extracts the [k]-th page, and what it gives back. *)
Definition extraction_cmd (tmpdir : string) (k : nat) (pr : PageRef) : list string :=
  separate_cmd pr (part_path tmpdir k).

Definition extraction (env : Env) (tmpdir : string) (k : nat) (pr : PageRef)
  : ran :=
  subprocess_run env (extraction_cmd tmpdir k pr).

(** An extraction succeeds when the call returns, the tool has returned 0
    and its file is there. *)
Definition succeeded (o : ran) : bool :=
  match o with
  | Returned r => (returncode r =? 0)%Z && bool_decide (is_Some (at_destination r))
  | Raised _ _ => false
  end.

(** The text of the error box after an extraction that did not succeed,
    and after a merge. *)
Definition extraction_report (pr : PageRef) (o : ran) : string :=
  match o with
  | Returned r => separate_failure pr r
  | Raised ex _ => ex
  end.

Definition merge_result (o : ran) : string + unit :=
  match o with
  | Returned r => if (returncode r =? 0)%Z then inr tt else inl (unite_failure r)
  | Raised ex _ => inl ex
  end.

(** The box that ends an export which has got as far as the merge. *)
Definition closing_box (out_path : string) (o : ran) : event :=
  match merge_result o with
  | inr _ => InfoBox "Done" ("Created:" ++ nl ++ out_path)
  | inl msg => ErrorBox "Export error" msg
  end.

(** The temporary files of [n] pages, in sequence order. *)
Definition part_paths_from (tmpdir : string) (k0 n : nat) : list string :=
  part_path tmpdir <$> seq k0 n.

Definition part_paths (tmpdir : string) (n : nat) : list string :=
  part_paths_from tmpdir 0 n.

(** The extraction commands of a sequence of pages, in sequence order. *)
Definition extraction_cmds_from (tmpdir : string) (k0 : nat) (pages : list PageRef)
  : list (list string) :=
  imap (fun k pr => extraction_cmd tmpdir (k0 + k) pr) pages.

Definition extraction_cmds (tmpdir : string) (pages : list PageRef)
  : list (list string) :=
  extraction_cmds_from tmpdir 0 pages.

(** What an export does before the first extraction. *)
Definition preamble (tmpdir : string) : list event :=
  [Which "pdfseparate"; Which "pdfunite"; SaveDialog; MakeTempDir tmpdir]%list.

Definition started (env : Env) (w : world) : world :=
  emit (MakeTempDir (mkdtemp env))
    (emit SaveDialog (emit (Which "pdfunite") (emit (Which "pdfseparate") w))).

(** Strict lexical order of two names (by character code). *)
Definition lex_lt (a b : string) : Prop := String.compare a b = Lt.

Definition lex_ltb (a b : string) : bool :=
  match String.compare a b with Lt => true | _ => false end.

(** Each of the [n] names from [idx] on comes before the next one. *)
Fixpoint names_step_up (idx : Z) (n : nat) : bool :=
  match n with
  | O => true
  | S n' => lex_ltb (part_name idx) (part_name (idx + 1)) && names_step_up (idx + 1) n'
  end.

(** The directory that [mkdtemp] makes is new: nothing is in it yet. *)
Definition fresh_dir (dir : string) (w : world) : Prop :=
  ∀ p, in_dir dir p = true → files w !! p = None.

End ExportPipeline.

(** ** Sample runs *)

Module Examples.

Import ExportPipeline.
Local Open Scope string_scope.

Definition page_a : PageRef := mkPageRef "/home/kiwi/a.pdf" 0.

(** An empty disk and an empty record. *)
Definition nothing : world := mkWorld ∅ []%list.

(** A run of a tool that ends well and leaves its file. *)
Definition written : ran := Returned (mkCompleted 0 "" (Some "%PDF-1.7")).

(** Both tools are installed and always end well. *)
Definition env_ok : Env :=
  mkEnv (fun _ => true) "/home/kiwi/out.pdf" "/tmp/pdfkiwi_k1w1" (fun _ => written).

(** The extraction into the third part fails and leaves no file. *)
Definition env_third_fails : Env :=
  mkEnv (fun _ => true) "/home/kiwi/out.pdf" "/tmp/pdfkiwi_k1w1"
    (fun cmd =>
       if String.eqb (List.last cmd "") "/tmp/pdfkiwi_k1w1/part_00003.pdf"
       then Returned (mkCompleted 1 "Syntax Error: Couldn't read xref table" None)
       else written).

(** The merge fails after it has begun to write its output. *)
Definition env_merge_fails : Env :=
  mkEnv (fun _ => true) "/home/kiwi/out.pdf" "/tmp/pdfkiwi_k1w1"
    (fun cmd =>
       if String.eqb (List.hd "" cmd) "pdfunite"
       then Returned (mkCompleted 1 "Error: could not write"
                        (Some "%PDF-1.7 (cut short)"))
       else written).

(** The third extraction prints a byte that is not UTF-8, so that
    [subprocess.run] raises once the tool has ended. *)
Definition env_third_raises : Env :=
  mkEnv (fun _ => true) "/home/kiwi/out.pdf" "/tmp/pdfkiwi_k1w1"
    (fun cmd =>
       if String.eqb (List.last cmd "") "/tmp/pdfkiwi_k1w1/part_00003.pdf"
       then Raised "'utf-8' codec can't decode byte 0xff in position 0: invalid start byte"
              (Some "%PDF-1.7")
       else written).

(** The merge cannot be started: its argument list is too long. *)
Definition env_long : Env :=
  mkEnv (fun _ => true) "/home/kiwi/out.pdf" "/tmp/pdfkiwi_k1w1"
    (fun cmd =>
       if String.eqb (List.hd "" cmd) "pdfunite"
       then Raised "[Errno 7] Argument list too long: 'pdfunite'" None
       else written).

End Examples.

(** ** Reading the record of an export *)

Module ExportRecord.

Import ExportPipeline.

(** The commands that were run, in the order of the runs. *)
Definition tool_runs (evs : list event) : list (list string) :=
  omap (fun e => match e with Run cmd => Some cmd | _ => None end) evs.

(** The number that a string of decimal digits writes. *)
Definition digits_value (s : string) : option N :=
  N.of_uint <$> NilEmpty.uint_of_string s.

End ExportRecord.

Module MoreExamples.

Import ExportPipeline Examples.
Local Open Scope string_scope.

(** [pdfunite] is not installed. *)
Definition env_no_unite : Env :=
  mkEnv (fun cmd => negb (String.eqb cmd "pdfunite"))
    "/home/kiwi/out.pdf" "/tmp/pdfkiwi_k1w1" (fun _ => written).

(** The save dialog is dismissed. *)
Definition env_dismissed : Env :=
  mkEnv (fun _ => true) "" "/tmp/pdfkiwi_k1w1" (fun _ => written).

(** A disk that holds the source document. *)
Definition with_source : world :=
  mkWorld {[ "/home/kiwi/a.pdf" := "%PDF-1.7 source" ]} []%list.

End MoreExamples.

(** ** The main window: adding documents, clearing, the trash box *)

Module MainWindow.

Import ExportPipeline.
Local Open Scope string_scope.

(** An item of the page list: its text and the [PageRef] kept under
    [Qt.UserRole] (the icon plays no part here). *)
Record QListWidgetItem := mkItem { text : string; data : PageRef }.

(** The documents outside: [_count_pages] asks PyMuPDF or [pdfinfo] and
    either gives a number or raises ([inl], with the text of the
    exception); [os.path.abspath]. *)
Record Documents := mkDocuments {
  _count_pages : string → string + Z;
  abspath : string → string
}.

(** The state of the window: the rows of [page_list], the page of the
    central stack that is shown (0: the large drop box, 1: the editor),
    whether [trash_box] is visible, and the message boxes shown so far. *)
Record window := mkWindow {
  page_list : list QListWidgetItem;
  current_index : Z;
  trash_visible : bool;
  boxes : list event
}.

(** [MainWindow.__init__]: no rows, the stack on its first page,
    [self.trash_box.hide()]. *)
Definition initial : window := mkWindow []%list 0 false []%list.

(** [_update_trash_visibility]:
<<
    has_pages = self.page_list.count() > 0
    self.trash_box.setVisible(has_pages)
>>  *)
Definition _update_trash_visibility (w : window) : window :=
  mkWindow (page_list w) (current_index w)
    (bool_decide (0 < length (page_list w))%nat) (boxes w).

(** The rows change and the model tells so: [rowsInserted] and
    [rowsRemoved] are both connected to [_update_trash_visibility]. *)
Definition rows_changed (rows : list QListWidgetItem) (w : window) : window :=
  _update_trash_visibility
    (mkWindow rows (current_index w) (trash_visible w) (boxes w)).

Definition setCurrentIndex (i : Z) (w : window) : window :=
  mkWindow (page_list w) i (trash_visible w) (boxes w).

Definition show_error (title text : string) (w : window) : window :=
  mkWindow (page_list w) (current_index w) (trash_visible w)
    (boxes w ++ [ErrorBox title text])%list.

(** [f"{os.path.basename(page.src_path)}\npage {page.page_index + 1}"] *)
Definition label (page : PageRef) : string :=
  basename (src_path page) ++ nl ++ "page " ++ str (page_index page + 1).

(** [_append_page_item]: a new item at the end of the list. *)
Definition _append_page_item (page : PageRef) (w : window) : window :=
  rows_changed (page_list w ++ [mkItem (label page) page])%list w.

(** [for i in range(n_pages): self._append_page_item(PageRef(src, i))],
    with [n] pages still to come from page [i] on. *)
Fixpoint append_pages (src : string) (i : Z) (n : nat) (w : window) : window :=
  match n with
  | O => w
  | S n' => append_pages src (i + 1)%Z n' (_append_page_item (mkPageRef src i) w)
  end.

(** The loop of [add_pdfs] over the paths, with [added_any]. *)
Fixpoint add_loop (docs : Documents) (paths : list string) (added_any : bool)
    (w : window) : bool * window :=
  match paths with
  | []%list => (added_any, w)
  | (p :: paths')%list =>
      match _count_pages docs p with
      | inl ex =>
          add_loop docs paths' added_any
            (show_error "Load error" ("Cannot read PDF:" ++ nl ++ p ++ nl ++ nl ++ ex) w)
      | inr n_pages =>
          if (n_pages <=? 0)%Z then add_loop docs paths' added_any w
          else add_loop docs paths' true
                 (append_pages (abspath docs p) 0 (Z.to_nat n_pages) w)
      end
  end.

Definition add_pdfs (docs : Documents) (paths : list string) (w : window) : window :=
  let '(added_any, w1) := add_loop docs paths false w in
  if added_any then _update_trash_visibility (setCurrentIndex 1 w1) else w1.

(** [clear_all]: [self.page_list.clear()], the trash box, the stack. *)
Definition clear_all (w : window) : window :=
  setCurrentIndex 0
    (_update_trash_visibility
       (mkWindow []%list (current_index w) (trash_visible w) (boxes w))).

Definition _gather_current_pages (w : window) : list PageRef :=
  data <$> page_list w.

(** [takeItem] and [insertItem] on the widget of the window: the rows
    change as in [PageList], and a change is told to the window. *)
Definition takeItem (row : Z) (w : window) : option QListWidgetItem * window :=
  match PageList.takeItem row (page_list w) with
  | (Some it, rows) => (Some it, rows_changed rows w)
  | (None, _) => (None, w)
  end.

Definition insertItem (row : Z) (it : option QListWidgetItem) (w : window) : window :=
  match it with
  | None => w
  | Some x => rows_changed (PageList.insertItem row (Some x) (page_list w)) w
  end.

(** [PageList.remove_selected], on the Delete key and on the context menu. *)
Definition remove_selected (sel : gset nat) (w : window) : window :=
  foldl (fun acc r => snd (takeItem (Z.of_nat r) acc)) w
    (reverse (PageList.sorted_rows sel)).

(** [MainWindow._trash_from_list]. *)
Definition _trash_from_list (sel : gset nat) (w : window) : window :=
  _update_trash_visibility
    (foldl (fun acc r => snd (takeItem (Z.of_nat r) acc)) w
       (reverse (PageList.sorted_rows sel))).

(** Where a drag comes from: [isinstance(e.source(), QListWidget)]. *)
Inductive drag_source := FromPageList | FromElsewhere.

(** [TrashBox.dropEvent]. *)
Definition TrashBox_dropEvent (src : drag_source) (sel : gset nat) (w : window)
  : window :=
  match src with
  | FromPageList => _trash_from_list sel w
  | FromElsewhere => w
  end.

Fixpoint take_rows (k : Z) (rows : list nat) (w : window)
  : list (option QListWidgetItem) * window :=
  match rows with
  | []%list => ([]%list, w)
  | (r :: rows')%list =>
      let '(it, w1) := takeItem (Z.of_nat r - k) w in
      let '(its, w2) := take_rows (k + 1) rows' w1 in
      ((it :: its)%list, w2)
  end.

Fixpoint insert_items (insert_at i : Z) (items : list (option QListWidgetItem))
    (w : window) : window :=
  match items with
  | []%list => w
  | (it :: items')%list =>
      insert_items insert_at (i + 1) items' (insertItem (insert_at + i) it w)
  end.

(** [PageList.dropEvent] on the widget of the window; [None] when the
    drop is left to Qt. *)
Definition dropEvent (_drop_index : option Z) (sel : gset nat) (w : window)
  : option window :=
  match _drop_index with
  | None => None
  | Some drop_index =>
      let selected_rows := PageList.sorted_rows sel in
      match selected_rows with
      | []%list => None
      | _ =>
          let '(items, w1) := take_rows 0 selected_rows w in
          let insert_at := drop_index in
          let insert_at :=
            (insert_at - PageList.removed_before selected_rows insert_at)%Z in
          Some (insert_items insert_at 0 items w1)
      end
  end.

(** What the user can do to the arrangement, one step at a time. *)
Inductive step (docs : Documents) : window → window → Prop :=
| step_add paths w : step docs w (add_pdfs docs paths w)
| step_clear w : step docs w (clear_all w)
| step_remove sel w : step docs w (remove_selected sel w)
| step_trash src sel w : step docs w (TrashBox_dropEvent src sel w)
| step_drop t sel w w' : dropEvent (Some t) sel w = Some w' → step docs w w'.

Definition reachable (docs : Documents) (w : window) : Prop :=
  rtc (step docs) initial w.

(** *** Words for the properties *)

(** The pages that a path brings: one per page of the document, in the
    order of the document; none when the count fails or is not positive. *)
Definition pages_of (docs : Documents) (p : string) : list PageRef :=
  match _count_pages docs p with
  | inl _ => []%list
  | inr n => (fun i => mkPageRef (abspath docs p) (Z.of_nat i)) <$> seq 0 (Z.to_nat n)
  end.

Definition item_of (page : PageRef) : QListWidgetItem := mkItem (label page) page.

(** The message boxes of the paths that cannot be read. *)
Definition load_errors (docs : Documents) (paths : list string) : list event :=
  omap (fun p => match _count_pages docs p with
                 | inl ex => Some (ErrorBox "Load error"
                               ("Cannot read PDF:" ++ nl ++ p ++ nl ++ nl ++ ex))
                 | inr _ => None
                 end) paths.

(** A page of a document that was counted: its index is below the count. *)
Definition known_page (docs : Documents) (pr : PageRef) : Prop :=
  ∃ p n, _count_pages docs p = inr n ∧ src_path pr = abspath docs p ∧
         (0 ≤ page_index pr < n)%Z.

(** The trash box shows exactly when there are rows. *)
Definition trash_follows_rows (w : window) : Prop :=
  trash_visible w = bool_decide (0 < length (page_list w))%nat.

(** [w'] is [w] with the rows [rows]: the stack and the message boxes
    are those of [w], and the trash box still follows the rows if it did. *)
Definition rows_edited (w w' : window) (rows : list QListWidgetItem) : Prop :=
  page_list w' = rows ∧ current_index w' = current_index w ∧
  boxes w' = boxes w ∧ (trash_follows_rows w → trash_follows_rows w').

(** What holds of the window after every step. *)
Definition well_kept (docs : Documents) (w : window) : Prop :=
  trash_follows_rows w ∧
  (page_list w ≠ []%list → current_index w = 1%Z) ∧
  Forall (fun it => text it = label (data it) ∧ known_page docs (data it))
    (page_list w).

End MainWindow.

Module WindowExamples.

Import ExportPipeline MainWindow.
Local Open Scope string_scope.

(** One document of two pages; every other path cannot be read. *)
Definition docs_two : Documents :=
  mkDocuments
    (fun p => if String.eqb p "a.pdf" then inr 2%Z else inl "cannot open file")
    (fun p => "/home/kiwi/" ++ p).

(** The window once [a.pdf] and a broken file have been added. *)
Definition two_pages : window := add_pdfs docs_two ["broken.pdf"; "a.pdf"]%list initial.

End WindowExamples.

(** * Proofs *)

(** * Facts about the rows *)

Section RowsFacts.
Context {A : Type}.
Implicit Types (l : list A) (rows : list nat) (sel : gset nat).
Import PageList.

(** **** The sorted rows of a selection *)

Lemma sorted_rows_perm sel : sorted_rows sel ≡ₚ elements sel.
Proof. apply merge_sort_Permutation. Qed.

Lemma elem_of_sorted_rows sel i : i ∈ sorted_rows sel ↔ i ∈ sel.
Proof. by rewrite sorted_rows_perm, elem_of_elements. Qed.

Lemma sorted_rows_increasing sel : StronglySorted lt (sorted_rows sel).
Proof.
  assert (Hle : StronglySorted le (sorted_rows sel))
    by (apply StronglySorted_merge_sort; apply _).
  assert (Hnd : NoDup (sorted_rows sel))
    by (rewrite sorted_rows_perm; apply NoDup_elements).
  induction Hle as [|r rows Hs IH Hall]; [constructor|].
  apply NoDup_cons in Hnd as [Hr Hnd].
  constructor; [by apply IH|].
  apply Forall_forall; intros j Hj.
  rewrite Forall_forall in Hall. specialize (Hall j Hj).
  assert (j ≠ r) by (intros ->; done). lia.
Qed.

Lemma sorted_rows_nil sel : sorted_rows sel = [] ↔ sel = ∅.
Proof.
  split.
  - intros Hnil. apply set_eq; intros i.
    rewrite <- elem_of_sorted_rows, Hnil. set_solver.
  - intros ->. reflexivity.
Qed.

(** **** Restriction of a sequence to a set of indices *)

Lemma restrict_from_ext (p q : nat → bool) i l :
  (∀ j, (i ≤ j < i + length l)%nat → p j = q j) →
  restrict_from p i l = restrict_from q i l.
Proof.
  revert i; induction l as [|x l IH]; intros i Hpq; [done|].
  simpl in *. rewrite (Hpq i) by lia.
  rewrite (IH (S i)) by (intros; apply Hpq; lia). done.
Qed.

Lemma restrict_from_all (p : nat → bool) i l :
  (∀ j, (i ≤ j < i + length l)%nat → p j = true) → restrict_from p i l = l.
Proof.
  revert i; induction l as [|x l IH]; intros i Hp; [done|].
  simpl in *. rewrite (Hp i) by lia. f_equal. apply IH. intros; apply Hp; lia.
Qed.

Lemma restrict_from_none (p : nat → bool) i l :
  (∀ j, (i ≤ j < i + length l)%nat → p j = false) → restrict_from p i l = [].
Proof.
  revert i; induction l as [|x l IH]; intros i Hp; [done|].
  simpl in *. rewrite (Hp i) by lia. apply IH. intros; apply Hp; lia.
Qed.

Lemma restrict_from_app (p : nat → bool) i l1 l2 :
  restrict_from p i (l1 ++ l2)
  = restrict_from p i l1 ++ restrict_from p (i + length l1) l2.
Proof.
  revert i; induction l1 as [|x l1 IH]; intros i; simpl.
  - by rewrite Nat.add_0_r.
  - rewrite IH. replace (S i + length l1)%nat with (i + S (length l1))%nat by lia.
    by destruct (p i).
Qed.

Lemma restrict_from_split (p : nat → bool) i l :
  restrict_from p i l ++ restrict_from (λ j, negb (p j)) i l ≡ₚ l.
Proof.
  revert i; induction l as [|x l IH]; intros i; simpl; [done|].
  destruct (p i); simpl.
  - by rewrite IH.
  - by rewrite <- Permutation_middle, IH.
Qed.

(** **** Taking an item *)

Lemma takeItem_nat (r : nat) l : takeItem (Z.of_nat r) l = (l !! r, delete r l).
Proof.
  unfold takeItem. rewrite Nat2Z.id. case_bool_decide as Hr; [done|].
  rewrite lookup_ge_None_2 by lia.
  by rewrite delete_take_drop, drop_ge, app_nil_r, take_ge by lia.
Qed.

Lemma takeItem_head x l : takeItem 0 (x :: l) = (Some x, l).
Proof. apply (takeItem_nat 0). Qed.

Lemma takeItem_tail (row : Z) x l :
  0 < row →
  takeItem row (x :: l)
  = (fst (takeItem (row - 1) l), x :: snd (takeItem (row - 1) l)).
Proof.
  intros Hrow. unfold takeItem. simpl length.
  replace (Z.to_nat row) with (S (Z.to_nat (row - 1))) by lia.
  repeat case_bool_decide; try lia; done.
Qed.

Lemma take_rows_empty k rows :
  take_rows k rows ([] : list A) = (replicate (length rows) None, []).
Proof.
  revert k; induction rows as [|r rows IH]; intros k; [done|].
  simpl. unfold takeItem at 1. simpl. case_bool_decide; [lia|].
  by rewrite IH.
Qed.

(** Rows that all lie past the head leave the head where it is. *)
Lemma take_rows_skip rows : ∀ (k : Z) x l,
  StronglySorted lt rows →
  Forall (λ r, k < Z.of_nat r) rows →
  take_rows k rows (x :: l)
  = (fst (take_rows (k + 1) rows l), x :: snd (take_rows (k + 1) rows l)).
Proof.
  induction rows as [|r rows IH]; intros k x l Hs Hall; [done|].
  apply StronglySorted_inv in Hs as [Hs Hr].
  apply Forall_cons in Hall as [Hk Hall].
  simpl. rewrite takeItem_tail by lia.
  replace (Z.of_nat r - (k + 1)) with (Z.of_nat r - k - 1) by lia.
  destruct (takeItem (Z.of_nat r - k - 1) l) as [it l1]; simpl.
  rewrite IH; [|done|].
  - by destruct (take_rows (k + 1 + 1) rows l1).
  - rewrite Forall_forall in Hr |- *. intros j Hj. specialize (Hr j Hj). lia.
Qed.

Lemma take_rows_restrict l : ∀ (i : nat) rows,
  StronglySorted lt rows →
  Forall (λ r, (i ≤ r)%nat) rows →
  ∃ m, take_rows (Z.of_nat i) rows l
       = ((Some <$> restrict_from (on_rows rows) i l) ++ replicate m None,
          restrict_from (off_rows rows) i l).
Proof.
  induction l as [|x l IH]; intros i rows Hs Hall.
  { exists (length rows). by rewrite take_rows_empty. }
  destruct rows as [|r rows].
  { exists 0%nat. rewrite restrict_from_none, restrict_from_all; [done|intros..].
    - apply bool_decide_eq_true_2. set_solver.
    - apply bool_decide_eq_false_2. set_solver. }
  pose proof Hs as Hs'. apply StronglySorted_inv in Hs' as [Hs' Hr].
  pose proof Hall as Hall'. apply Forall_cons in Hall' as [Hi Hall'].
  rewrite Forall_forall in Hr.
  destruct (decide (r = i)) as [->|Hne].
  - destruct (IH (S i) rows) as [m Hm]; [done| |].
    { apply Forall_forall. intros j Hj. specialize (Hr j Hj). lia. }
    exists m. simpl. rewrite Z.sub_diag, takeItem_head.
    replace (Z.of_nat i + 1) with (Z.of_nat (S i)) by lia. rewrite Hm.
    replace (on_rows (i :: rows) i) with true
      by (symmetry; apply bool_decide_eq_true_2; set_solver).
    replace (off_rows (i :: rows) i) with false
      by (symmetry; apply bool_decide_eq_false_2; set_solver).
    rewrite (restrict_from_ext (on_rows (i :: rows)) (on_rows rows) (S i)),
      (restrict_from_ext (off_rows (i :: rows)) (off_rows rows) (S i)); [done|..].
    + intros j Hj. apply bool_decide_ext. rewrite elem_of_cons. intuition lia.
    + intros j Hj. apply bool_decide_ext. rewrite elem_of_cons. intuition lia.
  - assert (Hgt : Forall (λ r', (S i ≤ r')%nat) (r :: rows)).
    { apply Forall_cons; split; [lia|]. apply Forall_forall.
      intros j Hj. specialize (Hr j Hj). lia. }
    destruct (IH (S i) (r :: rows) Hs Hgt) as [m Hm].
    exists m. rewrite take_rows_skip; [|done|].
    2:{ eapply Forall_impl; [exact Hgt|]. simpl; intros; lia. }
    replace (Z.of_nat i + 1) with (Z.of_nat (S i)) by lia. rewrite Hm.
    assert (i ∉ r :: rows).
    { intros Hin. rewrite Forall_forall in Hgt. specialize (Hgt i Hin). lia. }
    simpl.
    replace (on_rows (r :: rows) i) with false
      by (symmetry; by apply bool_decide_eq_false_2).
    replace (off_rows (r :: rows) i) with true
      by (symmetry; by apply bool_decide_eq_true_2).
    done.
Qed.

(** **** Putting the items back *)

Lemma insertItem_None row l : insertItem row None l = l.
Proof. done. Qed.

Lemma insert_items_None insert_at m : ∀ i l,
  insert_items insert_at i (replicate m None) l = l.
Proof. induction m as [|m IH]; intros i l; simpl; [done|]. apply IH. Qed.

Lemma insert_items_app insert_at its1 : ∀ i its2 l,
  insert_items insert_at i (its1 ++ its2) l
  = insert_items insert_at (i + Z.of_nat (length its1)) its2
      (insert_items insert_at i its1 l).
Proof.
  induction its1 as [|it its1 IH]; intros i its2 l; simpl.
  - by rewrite Z.add_0_r.
  - rewrite IH. f_equal. lia.
Qed.

Lemma insert_items_block (a : nat) (block : list A) : ∀ done_ rest,
  insert_items (Z.of_nat a) (Z.of_nat (length done_)) (Some <$> block)
    (take a rest ++ done_ ++ drop a rest)
  = take a rest ++ (done_ ++ block) ++ drop a rest.
Proof.
  induction block as [|x block IH]; intros done_ rest; simpl.
  { by rewrite app_nil_r. }
  assert (Hpos : Z.to_nat (Z.min (Z.max (Z.of_nat a + Z.of_nat (length done_)) 0)
            (Z.of_nat (length (take a rest ++ done_ ++ drop a rest))))
          = (length (take a rest) + length done_)%nat).
  { rewrite !length_app, length_take, length_drop. lia. }
  rewrite Hpos.
  rewrite (app_assoc (take a rest) done_).
  rewrite take_app_length', drop_app_length' by (rewrite length_app; lia).
  replace (Z.of_nat (length done_) + 1) with (Z.of_nat (length (done_ ++ [x])))
    by (rewrite length_app; simpl; lia).
  replace ((take a rest ++ done_) ++ x :: drop a rest)
    with (take a rest ++ (done_ ++ [x]) ++ drop a rest)
    by (by rewrite <- !app_assoc).
  rewrite IH. by rewrite <- !app_assoc.
Qed.

Lemma insert_items_reinsert (a : Z) (block : list A) m rest :
  0 ≤ a →
  insert_items a 0 ((Some <$> block) ++ replicate m None) rest
  = reinsert_at a block rest.
Proof.
  intros Ha. rewrite insert_items_app, insert_items_None.
  unfold reinsert_at.
  pose proof (insert_items_block (Z.to_nat a) block [] rest) as H.
  simpl in H. rewrite Z2Nat.id, take_drop in H by done. done.
Qed.

(** **** The count of the rows before the target *)

Lemma removed_before_size sel (t : Z) :
  removed_before (sorted_rows sel) t
  = Z.of_nat (size (filter (λ i, Z.of_nat i < t) sel)).
Proof.
  unfold removed_before. f_equal. unfold size, set_size. simpl.
  apply Permutation_length. rewrite sorted_rows_perm.
  apply NoDup_Permutation.
  - apply NoDup_filter, NoDup_elements.
  - apply NoDup_elements.
  - intros i. rewrite list_elem_of_filter, !elem_of_elements, elem_of_filter. done.
Qed.

(** **** The relocation is the two-phase rule *)

Lemma adjustedTarget_nonneg sel (t : Z) : 0 ≤ t → 0 ≤ adjustedTarget sel t.
Proof.
  intros Ht. unfold adjustedTarget.
  set (below := filter (λ i, Z.of_nat i < t) sel).
  assert (Hsub : below ⊆ set_seq 0 (Z.to_nat t)).
  { intros i Hi. apply elem_of_filter in Hi as [Hi _].
    apply elem_of_set_seq. lia. }
  apply subseteq_size in Hsub. rewrite size_set_seq in Hsub. lia.
Qed.

Lemma dropEvent_unfold sel (t : Z) l :
  sel ≠ ∅ →
  dropEvent (Some t) sel l
  = Relocated (insert_items (t - removed_before (sorted_rows sel) t) 0
                 (fst (take_rows 0 (sorted_rows sel) l))
                 (snd (take_rows 0 (sorted_rows sel) l))).
Proof.
  intros Hsel. unfold dropEvent.
  destruct (sorted_rows sel) as [|r0 rows0] eqn:Hrows.
  { by apply sorted_rows_nil in Hrows. }
  by destruct (take_rows 0 (r0 :: rows0) l).
Qed.

Lemma dropEvent_two_phase sel (t : Z) l :
  sel ≠ ∅ → 0 ≤ t →
  dropEvent (Some t) sel l = Relocated (relocate_two_phase sel t l).
Proof.
  intros Hsel Ht. rewrite dropEvent_unfold by done.
  destruct (take_rows_restrict l 0 (sorted_rows sel)) as [m Hm].
  { apply sorted_rows_increasing. }
  { apply Forall_forall; intros; lia. }
  change (Z.of_nat 0) with 0 in Hm. rewrite Hm. simpl fst; simpl snd. f_equal.
  rewrite removed_before_size.
  pose proof (adjustedTarget_nonneg sel t Ht) as Hadj.
  unfold adjustedTarget in Hadj |- *.
  rewrite insert_items_reinsert by exact Hadj.
  unfold relocate_two_phase, extracted, remaining. f_equal.
  - apply restrict_from_ext. intros j _. unfold on_rows.
    apply bool_decide_ext. apply elem_of_sorted_rows.
  - apply restrict_from_ext. intros j _. unfold off_rows.
    apply bool_decide_ext. by rewrite elem_of_sorted_rows.
Qed.

(** **** Removal of the selection *)

Lemma foldl_reverse {B C} (f : B → C → B) (b : B) (k : list C) :
  foldl f b (reverse k) = foldr (λ c acc, f acc c) b k.
Proof.
  induction k as [|c k IH]; [done|].
  by rewrite reverse_cons, foldl_app, IH.
Qed.

Lemma delete_restrict_from (p : nat → bool) l : ∀ (i r : nat),
  (i ≤ r)%nat →
  (∀ j, (i ≤ j ≤ r)%nat → p j = true) →
  delete (r - i)%nat (restrict_from p i l)
  = restrict_from (λ j, p j && negb (j =? r)%nat) i l.
Proof.
  induction l as [|x l IH]; intros i r Hir Hp; [done|].
  simpl. rewrite (Hp i) by lia. simpl.
  destruct (decide (r = i)) as [->|Hne].
  - rewrite Nat.eqb_refl, Nat.sub_diag. simpl.
    apply restrict_from_ext. intros j Hj.
    replace (j =? i)%nat with false by (symmetry; apply Nat.eqb_neq; lia).
    by rewrite andb_true_r.
  - replace (i =? r)%nat with false by (symmetry; apply Nat.eqb_neq; lia).
    replace (r - i)%nat with (S (r - S i)) by lia. simpl.
    f_equal. apply IH; [lia|]. intros; apply Hp; lia.
Qed.

Lemma remove_rows_restrict rows l :
  StronglySorted lt rows →
  foldr (λ r acc, snd (takeItem (Z.of_nat r) acc)) l rows
  = restrict_from (off_rows rows) 0 l.
Proof.
  intros Hs. induction Hs as [|r rows Hs IH Hr]; simpl.
  { symmetry. apply restrict_from_all. intros j _.
    apply bool_decide_eq_true_2. set_solver. }
  rewrite IH, takeItem_nat. simpl.
  rewrite Forall_forall in Hr.
  replace r with (r - 0)%nat at 1 by lia.
  rewrite delete_restrict_from; [|lia|].
  - apply restrict_from_ext. intros j _. unfold off_rows.
    destruct (Nat.eqb_spec j r) as [->|Hne].
    + rewrite andb_false_r. symmetry. apply bool_decide_eq_false_2.
      intros Hn. apply Hn, elem_of_cons. by left.
    + rewrite andb_true_r. apply bool_decide_ext.
      rewrite elem_of_cons. intuition.
  - intros j Hj. apply bool_decide_eq_true_2. intros Hin.
    specialize (Hr j Hin). lia.
Qed.

Lemma remove_selected_remaining sel l : remove_selected sel l = remaining sel l.
Proof.
  unfold remove_selected. rewrite foldl_reverse.
  rewrite remove_rows_restrict by apply sorted_rows_increasing.
  apply restrict_from_ext. intros j _.
  apply bool_decide_ext. by rewrite elem_of_sorted_rows.
Qed.

(** **** What a relocation keeps *)

Lemma relocate_two_phase_perm sel (t : Z) l : relocate_two_phase sel t l ≡ₚ l.
Proof.
  unfold relocate_two_phase, reinsert_at.
  rewrite Permutation_app_swap_app, take_drop.
  unfold extracted, remaining.
  rewrite <- (restrict_from_split (λ i, bool_decide (i ∈ sel)) 0 l) at 3.
  apply Permutation_app_head. apply reflexive_eq.
  apply restrict_from_ext. intros j _.
  by rewrite bool_decide_not.
Qed.

(** **** A block dropped where it already is *)

Local Ltac run_side :=
  let j := fresh "j" in let Hj := fresh "Hj" in
  intros j Hj; rewrite ?length_take, ?length_drop in Hj;
  first [apply bool_decide_eq_true_2 | apply bool_decide_eq_false_2];
  rewrite elem_of_set_seq; lia.

Lemma extracted_run (a m : nat) l :
  extracted (set_seq a m) l = take m (drop a l).
Proof.
  unfold extracted.
  rewrite <- (take_drop a l) at 1. rewrite <- (take_drop m (drop a l)) at 1.
  rewrite !restrict_from_app. simpl.
  rewrite restrict_from_none, restrict_from_all, restrict_from_none
    by run_side.
  by rewrite app_nil_r.
Qed.

Lemma remaining_run (a m : nat) l :
  remaining (set_seq a m) l = take a l ++ drop (a + m) l.
Proof.
  unfold remaining.
  rewrite <- (take_drop a l) at 1. rewrite <- (take_drop m (drop a l)) at 1.
  rewrite !restrict_from_app. simpl.
  rewrite restrict_from_all, restrict_from_none, restrict_from_all
    by run_side.
  by rewrite drop_drop.
Qed.

Lemma adjustedTarget_run (a m : nat) (t : Z) :
  Z.of_nat a ≤ t ≤ Z.of_nat a + Z.of_nat m →
  adjustedTarget (set_seq a m) t = Z.of_nat a.
Proof.
  intros Ht. unfold adjustedTarget.
  replace (filter (λ i, Z.of_nat i < t) (set_seq a m : gset nat))
    with (set_seq a (Z.to_nat t - a) : gset nat).
  - rewrite size_set_seq. lia.
  - apply set_eq. intros i.
    rewrite elem_of_filter, !elem_of_set_seq. lia.
Qed.

Lemma relocate_run_in_place (a m : nat) (t : Z) l :
  Z.of_nat a ≤ t ≤ Z.of_nat a + Z.of_nat m →
  relocate_two_phase (set_seq a m) t l = l.
Proof.
  intros Ht. unfold relocate_two_phase, reinsert_at.
  rewrite adjustedTarget_run, Nat2Z.id, extracted_run, remaining_run by done.
  destruct (decide (a ≤ length l)%nat) as [Hle|Hgt].
  - rewrite take_app_length', drop_app_length' by (symmetry; by apply length_take_le).
    rewrite <- drop_drop, take_drop. apply take_drop.
  - rewrite (drop_ge l (a + m)), (drop_ge l a), (take_ge l a) by lia.
    rewrite app_nil_r, take_nil, take_ge, drop_ge by lia.
    by rewrite app_nil_r.
Qed.

End RowsFacts.

(** * Facts about the drop planner *)

Section PlannerFacts.
Import Planner.
Implicit Types (rects : list QRect) (row : list (nat * QRect)) (e : nat * QRect).

Lemma elem_of_collect_row spacing pos rects : ∀ i0 i r,
  (i, r) ∈ collect_row spacing pos i0 rects ↔
  (i0 ≤ i)%nat ∧ rects !! (i - i0)%nat = Some r ∧ in_row_span spacing pos r = true.
Proof.
  induction rects as [|r0 rects IH]; intros i0 i r; simpl.
  { split; [by intros ?%elem_of_nil|by intros (_ & ? & _)]. }
  destruct (in_row_span spacing pos r0) eqn:Hspan.
  - rewrite elem_of_cons, IH. split.
    + intros [[= -> ->]|(Hi & Hl & Hs)].
      * by rewrite Nat.sub_diag.
      * split; [lia|]. by replace (i - i0)%nat with (S (i - S i0)) by lia.
    + intros (Hi & Hl & Hs).
      destruct (decide (i = i0)) as [->|Hne].
      * rewrite Nat.sub_diag in Hl. simpl in Hl. left. congruence.
      * right. split; [lia|].
        by replace (i - i0)%nat with (S (i - S i0)) in Hl by lia.
  - rewrite IH. split.
    + intros (Hi & Hl & Hs). split; [lia|].
      by replace (i - i0)%nat with (S (i - S i0)) by lia.
    + intros (Hi & Hl & Hs).
      destruct (decide (i = i0)) as [->|Hne].
      * rewrite Nat.sub_diag in Hl. simpl in Hl. congruence.
      * split; [lia|].
        by replace (i - i0)%nat with (S (i - S i0)) in Hl by lia.
Qed.

Lemma collect_row_active spacing pos rects i r :
  (i, r) ∈ collect_row spacing pos 0 rects ↔
  rects !! i = Some r ∧ in_row_span spacing pos r = true.
Proof. rewrite elem_of_collect_row, Nat.sub_0_r. intuition lia. Qed.

Lemma collect_row_by_index spacing pos rects : ∀ i0,
  StronglySorted (λ e e', (fst e < fst e')%nat) (collect_row spacing pos i0 rects).
Proof.
  induction rects as [|r0 rects IH]; intros i0; simpl; [constructor|].
  destruct (in_row_span spacing pos r0); [|apply IH].
  constructor; [apply IH|].
  apply Forall_forall. intros [i r] Hin.
  apply elem_of_collect_row in Hin. simpl. lia.
Qed.

Lemma insert_by_left_perm e row : insert_by_left e row ≡ₚ e :: row.
Proof.
  induction row as [|e' row IH]; simpl; [done|].
  destruct (left (snd e) <=? left (snd e')); [done|].
  by rewrite IH, Permutation_swap.
Qed.

Lemma sort_by_left_perm row : sort_by_left row ≡ₚ row.
Proof.
  induction row as [|e row IH]; simpl; [done|].
  by rewrite insert_by_left_perm, IH.
Qed.

Lemma insert_by_left_sorted e row :
  StronglySorted entry_lt row →
  Forall (λ e', (fst e < fst e')%nat) row →
  StronglySorted entry_lt (insert_by_left e row).
Proof.
  intros Hs. induction Hs as [|e' row Hs IH Hall]; intros Hidx; simpl.
  { repeat constructor. }
  apply Forall_cons in Hidx as [He' Hidx].
  destruct (Z.leb_spec (left (snd e)) (left (snd e'))) as [Hle|Hgt].
  - constructor; [by constructor|].
    apply Forall_cons; split.
    + unfold entry_lt. lia.
    + rewrite Forall_forall in Hall, Hidx |- *. intros y Hy.
      specialize (Hall y Hy). specialize (Hidx y Hy).
      unfold entry_lt in *. lia.
  - constructor; [by apply IH|].
    rewrite insert_by_left_perm. apply Forall_cons; split; [|done].
    unfold entry_lt. lia.
Qed.

Lemma sort_by_left_sorted row :
  StronglySorted (λ e e', (fst e < fst e')%nat) row →
  StronglySorted entry_lt (sort_by_left row).
Proof.
  intros Hs. induction Hs as [|e row Hs IH Hall]; simpl; [constructor|].
  apply insert_by_left_sorted; [done|]. by rewrite sort_by_left_perm.
Qed.

Lemma walk_row_None pos row :
  walk_row pos row = None ↔ Forall (λ e, center_x (snd e) ≤ px pos) row.
Proof.
  induction row as [|[i r] row IH]; simpl.
  { split; [constructor|done]. }
  rewrite Forall_cons. simpl.
  destruct (Z.ltb_spec (px pos) (center_x r)); [|rewrite IH]; intuition (try lia; done).
Qed.

Lemma walk_row_Some pos row res :
  StronglySorted entry_lt row →
  walk_row pos row = Some res →
  ∃ i r, res = (i, r, true) ∧ (i, r) ∈ row ∧ px pos < center_x r ∧
    ∀ e, e ∈ row → px pos < center_x (snd e) → e = (i, r) ∨ entry_lt (i, r) e.
Proof.
  intros Hs. induction Hs as [|[i r] row Hs IH Hall]; simpl; [done|].
  destruct (Z.ltb_spec (px pos) (center_x r)) as [Hlt|Hge].
  - intros [= <-]. exists i, r. split_and!; [done|by left|done|].
    intros e [->|He]%elem_of_cons _; [by left|right].
    rewrite Forall_forall in Hall. by apply Hall.
  - intros Hw. destruct (IH Hw) as (i' & r' & -> & Hin & Hc & Hfirst).
    exists i', r'. split_and!; [done|by right|done|].
    intros e [->|He]%elem_of_cons Hce; [simpl in Hce; lia|by apply Hfirst].
Qed.

Lemma last_of_sorted row e0 :
  StronglySorted entry_lt row → row ≠ [] →
  List.last row e0 ∈ row ∧
  ∀ e, e ∈ row → e = List.last row e0 ∨ entry_lt e (List.last row e0).
Proof.
  intros Hs. induction Hs as [|e row Hs IH Hall]; [done|]. intros _.
  destruct row as [|e' row].
  { simpl. split; [by left|]. intros e1 ->%list_elem_of_singleton. by left. }
  destruct IH as [Hin Hmax]; [done|].
  change (List.last (e :: e' :: row) e0) with (List.last (e' :: row) e0).
  split; [by right|].
  intros e1 [->|He1]%elem_of_cons; [|by apply Hmax].
  right. rewrite Forall_forall in Hall. by apply Hall.
Qed.

Lemma entry_lt_left_of rects i r j r' :
  rects !! i = Some r → rects !! j = Some r' →
  entry_lt (i, r) (j, r') → left_of rects i j.
Proof. intros Hi Hj Hlt. exists r, r'. by split_and!. Qed.

(** The planner, once the row under the pointer is not empty. *)
Lemma compute_on_row spacing rects pos :
  collect_row spacing pos 0 rects ≠ [] →
  let row := sort_by_left (collect_row spacing pos 0 rects) in
  _compute_drop_position spacing rects pos
  = match walk_row pos row with
    | Some res => res
    | None => (fst (List.last row (0%nat, QRect_xywh 0 0 0 0)),
               snd (List.last row (0%nat, QRect_xywh 0 0 0 0)), false)
    end.
Proof.
  intros Hne row. unfold _compute_drop_position.
  destruct rects as [|first_rect rects]; [done|].
  destruct (collect_row spacing pos 0 (first_rect :: rects)) as [|e0 row0] eqn:Hrow; [done|].
  fold row. destruct (walk_row pos row); [done|].
  assert (Hrne : row ≠ []).
  { intros Hnil. pose proof (sort_by_left_perm (e0 :: row0)) as Hp.
    fold row in Hp. rewrite Hnil in Hp. by apply Permutation_nil_l in Hp. }
  destruct row as [|e1 row1]; [done|].
  assert (Hlast : ∀ d d', List.last (e1 :: row1) d = List.last (e1 :: row1) d').
  { clear. revert e1. induction row1 as [|e2 row1 IH]; intros e1 d d'; [done|].
    apply (IH e2). }
  rewrite (Hlast e0 (0%nat, QRect_xywh 0 0 0 0)).
  by destruct (List.last _ _).
Qed.

Lemma active_row_collect spacing rects pos i :
  in_active_row spacing rects pos i ↔
  ∃ r, (i, r) ∈ sort_by_left (collect_row spacing pos 0 rects).
Proof.
  unfold in_active_row. setoid_rewrite sort_by_left_perm.
  by setoid_rewrite collect_row_active.
Qed.

Lemma planner_first_past spacing rects pos i r :
  in_active_row spacing rects pos i → rects !! i = Some r → px pos < center_x r →
  ∃ idx rect,
    _compute_drop_position spacing rects pos = (idx, rect, true) ∧
    rects !! idx = Some rect ∧
    first_past_pointer spacing rects pos idx.
Proof.
  intros Hact Hi Hc.
  set (row := sort_by_left (collect_row spacing pos 0 rects)).
  assert (Hin : (i, r) ∈ row).
  { subst row. rewrite sort_by_left_perm. apply collect_row_active.
    destruct Hact as (r' & Hr' & Hs). split; congruence. }
  assert (Hne : collect_row spacing pos 0 rects ≠ []).
  { intros Hnil. subst row. rewrite Hnil in Hin. by apply elem_of_nil in Hin. }
  assert (Hsorted : StronglySorted entry_lt row)
    by apply sort_by_left_sorted, collect_row_by_index.
  rewrite compute_on_row by done. fold row.
  destruct (walk_row pos row) as [res|] eqn:Hw.
  2:{ apply walk_row_None in Hw. rewrite Forall_forall in Hw.
      specialize (Hw _ Hin). simpl in Hw. lia. }
  destruct (walk_row_Some _ _ _ Hsorted Hw) as (idx & rect & -> & Hidx & Hcx & Hfirst).
  assert (Hidx' : rects !! idx = Some rect ∧ in_row_span spacing pos rect = true).
  { apply collect_row_active. by rewrite <- sort_by_left_perm. }
  destruct Hidx' as [Hl Hs].
  exists idx, rect. split_and!; [done..|].
  split_and!; [by exists rect|by exists rect|].
  intros j rj (rj' & Hj' & Hsj) Hj Hcj.
  assert (rj' = rj) as -> by congruence.
  destruct (Hfirst (j, rj)) as [[= -> ->]|Hlt]; [|done|by left|].
  - subst row. rewrite sort_by_left_perm. by apply collect_row_active.
  - right. by eapply entry_lt_left_of.
Qed.

Lemma planner_rightmost spacing rects pos :
  (∃ i, in_active_row spacing rects pos i) →
  (∀ j r, in_active_row spacing rects pos j → rects !! j = Some r →
          center_x r ≤ px pos) →
  ∃ idx rect,
    _compute_drop_position spacing rects pos = (idx, rect, false) ∧
    rects !! idx = Some rect ∧
    rightmost_of_row spacing rects pos idx.
Proof.
  intros [i (r & Hi & Hs)] Hall.
  set (row := sort_by_left (collect_row spacing pos 0 rects)).
  assert (Hrow : ∀ j rj, (j, rj) ∈ row ↔
            rects !! j = Some rj ∧ in_row_span spacing pos rj = true).
  { intros j rj. subst row. rewrite sort_by_left_perm. apply collect_row_active. }
  assert (Hin : (i, r) ∈ row) by by apply Hrow.
  assert (Hne : collect_row spacing pos 0 rects ≠ []).
  { intros Hnil. subst row. rewrite Hnil in Hin. by apply elem_of_nil in Hin. }
  assert (Hrne : row ≠ []).
  { intros Hnil. rewrite Hnil in Hin. by apply elem_of_nil in Hin. }
  assert (Hsorted : StronglySorted entry_lt row)
    by apply sort_by_left_sorted, collect_row_by_index.
  rewrite compute_on_row by done. fold row.
  destruct (walk_row pos row) as [res|] eqn:Hw.
  { destruct (walk_row_Some _ _ _ Hsorted Hw) as (idx & rect & -> & Hidx & Hcx & _).
    apply Hrow in Hidx as [Hl Hsp].
    assert (center_x rect ≤ px pos); [|lia].
    apply (Hall idx); [by exists rect|done]. }
  destruct (last_of_sorted row (0%nat, QRect_xywh 0 0 0 0) Hsorted Hrne)
    as [Hlast Hmax].
  destruct (List.last row _) as [idx rect]. simpl.
  apply Hrow in Hlast as Hlast'. destruct Hlast' as [Hl Hsp].
  exists idx, rect. split_and!; [done..|].
  split; [by exists rect|].
  intros j (rj & Hj & Hsj).
  destruct (Hmax (j, rj)) as [[= -> ->]|Hlt]; [by apply Hrow|by left|].
  right. by eapply entry_lt_left_of.
Qed.

(** **** Outside every row *)

Lemma last_cons_default {B} (l : list B) : ∀ x d d',
  List.last (x :: l) d = List.last (x :: l) d'.
Proof.
  induction l as [|y l IH]; intros x d d'; [done|]. apply (IH y).
Qed.

Lemma lookup_last_cons {B} (l : list B) : ∀ x d,
  (x :: l) !! length l = Some (List.last (x :: l) d).
Proof.
  induction l as [|y l IH]; intros x d; [done|]. apply (IH y).
Qed.

Lemma collect_row_nil spacing pos rects : ∀ i0,
  Forall (λ r, in_row_span spacing pos r = false) rects →
  collect_row spacing pos i0 rects = [].
Proof.
  induction rects as [|r rects IH]; intros i0 Hall; [done|].
  apply Forall_cons in Hall as [Hr Hall]. simpl. rewrite Hr. by apply IH.
Qed.

Lemma planner_outside spacing first_rect rects pos :
  Forall (λ r, in_row_span spacing pos r = false) (first_rect :: rects) →
  _compute_drop_position spacing (first_rect :: rects) pos
  = if py pos <? top first_rect then (0%nat, first_rect, true)
    else (length rects, List.last (first_rect :: rects) first_rect, false).
Proof.
  intros Hall. unfold _compute_drop_position.
  rewrite collect_row_nil by done.
  by replace (length (first_rect :: rects) - 1)%nat with (length rects)
    by (simpl; lia).
Qed.

End PlannerFacts.

(** * Facts about paths and the names of the parts *)

Section Strings.
Import ExportPipeline.
Local Open Scope string_scope.

Lemma append_cons (ch : ascii) (a b : string) :
  String ch a ++ b = String ch (a ++ b).
Proof. reflexivity. Qed.

Lemma append_assoc (a b c : string) : (a ++ b) ++ c = a ++ (b ++ c).
Proof.
  induction a as [|ch a IH]; [done|]. by rewrite !append_cons, IH.
Qed.

Lemma prefix_append (a b : string) : String.prefix a (a ++ b) = true.
Proof.
  induction a as [|ch a IH]; [by destruct b|].
  rewrite append_cons. simpl.
  destruct (ascii_dec ch ch); [done|congruence].
Qed.

Lemma in_dir_path_join dir name : in_dir dir (path_join dir name) = true.
Proof.
  unfold in_dir, path_join. rewrite <- append_assoc. apply prefix_append.
Qed.

Lemma ascii_compare_refl (c : ascii) : Ascii.compare c c = Eq.
Proof. unfold Ascii.compare. apply N.compare_refl. Qed.

Lemma compare_append (a b c : string) :
  String.compare (a ++ b) (a ++ c) = String.compare b c.
Proof.
  induction a as [|ch a IH]; [done|].
  rewrite !append_cons. simpl. by rewrite ascii_compare_refl.
Qed.

Lemma ascii_compare_lt_trans (a b c : ascii) :
  Ascii.compare a b = Lt → Ascii.compare b c = Lt → Ascii.compare a c = Lt.
Proof.
  unfold Ascii.compare. rewrite !N.compare_lt_iff. apply N.lt_trans.
Qed.

Lemma lex_lt_trans (a b c : string) : lex_lt a b → lex_lt b c → lex_lt a c.
Proof.
  unfold lex_lt. revert b c.
  induction a as [|x a IH]; intros [|y b] [|z c]; simpl; try done.
  destruct (Ascii.compare x y) eqn:Hxy; [|simpl|done].
  - apply Ascii.compare_eq_iff in Hxy as ->.
    destruct (Ascii.compare y z); [apply IH|done..].
  - destruct (Ascii.compare y z) eqn:Hyz; [| |done].
    + apply Ascii.compare_eq_iff in Hyz as <-. by rewrite Hxy.
    + by rewrite (ascii_compare_lt_trans x y z).
Qed.

Lemma lex_lt_asym (a b : string) : lex_lt a b → ¬ lex_lt b a.
Proof.
  unfold lex_lt. intros Hab Hba.
  rewrite String.compare_antisym, Hab in Hba. done.
Qed.

(** **** The names of the parts, up to five digits *)

Lemma names_step_up_spec n : ∀ idx,
  names_step_up idx n = true →
  ∀ k, (idx ≤ k < idx + Z.of_nat n)%Z → lex_lt (part_name k) (part_name (k + 1)).
Proof.
  induction n as [|n IH]; intros idx Hn k Hk; [lia|].
  simpl in Hn. apply andb_true_iff in Hn as [Hhd Htl].
  destruct (decide (k = idx)) as [->|Hne].
  - unfold lex_ltb in Hhd. unfold lex_lt. by destruct (String.compare _ _).
  - apply (IH (idx + 1)%Z); [done|lia].
Qed.

Lemma names_step_up_five_digits : names_step_up 1 (Z.to_nat 99998) = true.
Proof. vm_compute. reflexivity. Qed.

Lemma part_name_next (k : Z) :
  (1 ≤ k < 99999)%Z → lex_lt (part_name k) (part_name (k + 1)).
Proof.
  intros Hk. apply (names_step_up_spec _ _ names_step_up_five_digits). lia.
Qed.

Lemma part_name_increasing (i j : Z) :
  (1 ≤ i)%Z → (i < j)%Z → (j ≤ 99999)%Z → lex_lt (part_name i) (part_name j).
Proof.
  intros Hi Hij Hj.
  replace j with (i + 1 + Z.of_nat (Z.to_nat (j - i - 1)))%Z by lia.
  assert (Hb : (i + 1 + Z.of_nat (Z.to_nat (j - i - 1)) ≤ 99999)%Z) by lia.
  induction (Z.to_nat (j - i - 1)) as [|d IH].
  - rewrite Z.add_0_r. apply part_name_next. lia.
  - eapply lex_lt_trans; [apply IH; lia|].
    replace (i + 1 + Z.of_nat (S d))%Z with (i + 1 + Z.of_nat d + 1)%Z by lia.
    apply part_name_next. lia.
Qed.

End Strings.

(** * Facts about the export *)

Section ExportFacts.
Import ExportPipeline.
Variable env : Env.
Variable tmpdir : string.
Implicit Types (pages : list PageRef) (w : world) (parts : list string).

Lemma last_separate_cmd pr single_path :
  List.last (separate_cmd pr single_path) "" = single_path.
Proof. reflexivity. Qed.

Lemma last_unite_cmd parts out_path :
  List.last (unite_cmd parts out_path) "" = out_path.
Proof.
  unfold unite_cmd. change ("pdfunite" :: parts ++ [out_path])
    with (("pdfunite" :: parts) ++ [out_path]).
  apply List.last_last.
Qed.

Lemma run_log cmd w : log (snd (run env cmd w)) = log w ++ [Run cmd].
Proof. done. Qed.

Lemma run_files_dest cmd w :
  files (snd (run env cmd w)) !! List.last cmd "" = left_behind (subprocess_run env cmd).
Proof.
  simpl. destruct (left_behind _).
  - apply lookup_insert_eq.
  - apply lookup_delete_eq.
Qed.

Lemma run_files_other cmd w p :
  p ≠ List.last cmd "" →
  files (snd (run env cmd w)) !! p = files w !! p.
Proof.
  intros Hp. simpl. destruct (left_behind _).
  - by apply lookup_insert_ne.
  - by apply lookup_delete_ne.
Qed.

Lemma succeeded_returned (o : ran) :
  succeeded o = true →
  ∃ r, o = Returned r ∧ returncode r = 0 ∧ is_Some (at_destination r).
Proof.
  destruct o as [r|ex remains]; [|done]. cbn [succeeded].
  intros [Hrc Hsome]%andb_true_iff. exists r. split_and!; [done|lia|].
  by apply bool_decide_eq_true in Hsome.
Qed.

Lemma path_exists_after_separate pr single_path w :
  path_exists single_path (snd (run env (separate_cmd pr single_path) w))
  = bool_decide (is_Some (left_behind (subprocess_run env (separate_cmd pr single_path)))).
Proof.
  unfold path_exists. apply bool_decide_ext.
  by rewrite <- (run_files_dest (separate_cmd pr single_path) w).
Qed.

Lemma separate_all_step pr pages (k : nat) parts w :
  separate_all env tmpdir (Z.of_nat k + 1) (pr :: pages) parts w
  = let w1 := snd (run env (extraction_cmd tmpdir k pr) w) in
    if succeeded (extraction env tmpdir k pr)
    then separate_all env tmpdir (Z.of_nat (S k) + 1) pages
           (parts ++ [part_path tmpdir k]) w1
    else (inl (extraction_report pr (extraction env tmpdir k pr)), w1).
Proof.
  simpl. fold (part_path tmpdir k). fold (extraction_cmd tmpdir k pr).
  set (w1 := {| files := _; log := _ |}).
  change w1 with (snd (run env (separate_cmd pr (part_path tmpdir k)) w)).
  rewrite path_exists_after_separate.
  fold (extraction_cmd tmpdir k pr). fold (extraction env tmpdir k pr).
  replace (Z.of_nat (S k) + 1) with (Z.of_nat k + 1 + 1) by lia.
  destruct (extraction env tmpdir k pr) as [r|ex remains]; [|done].
  cbn [succeeded extraction_report left_behind].
  destruct (returncode r =? 0); simpl; [|done].
  by destruct (bool_decide _).
Qed.

Lemma separate_all_ok pages : ∀ (k0 : nat) parts w,
  (∀ k pr, pages !! k = Some pr →
           succeeded (extraction env tmpdir (k0 + k) pr) = true) →
  ∃ w', separate_all env tmpdir (Z.of_nat k0 + 1) pages parts w
          = (inr (parts ++ part_paths_from tmpdir k0 (length pages)), w') ∧
        log w' = log w ++ (Run <$> extraction_cmds_from tmpdir k0 pages) ∧
        ∀ p, in_dir tmpdir p = false → files w' !! p = files w !! p.
Proof.
  induction pages as [|pr pages IH]; intros k0 parts w Hok.
  { exists w. simpl. by rewrite !app_nil_r. }
  rewrite separate_all_step. cbv zeta.
  pose proof (Hok 0%nat pr eq_refl) as Hhd.
  rewrite Nat.add_0_r in Hhd. rewrite Hhd.
  destruct (IH (S k0) (parts ++ [part_path tmpdir k0])
              (snd (run env (extraction_cmd tmpdir k0 pr) w))) as (w' & Hres & Hlog & Hfiles).
  { intros k pr' Hk. replace (S k0 + k)%nat with (k0 + S k)%nat by lia.
    by apply Hok. }
  exists w'. split_and!.
  - rewrite Hres. by rewrite <- app_assoc.
  - rewrite Hlog, run_log, <- app_assoc. f_equal. simpl. f_equal.
    + by rewrite Nat.add_0_r.
    + f_equal. unfold extraction_cmds_from. apply imap_ext.
      intros k pr' _. simpl. f_equal. lia.
  - intros p Hp. rewrite Hfiles by done. apply run_files_other.
    intros ->. unfold extraction_cmd in Hp.
    rewrite last_separate_cmd in Hp. unfold part_path in Hp.
    by rewrite in_dir_path_join in Hp.
Qed.

Lemma separate_all_fail pre pr post : ∀ (k0 : nat) parts w,
  (∀ k pr', pre !! k = Some pr' →
            succeeded (extraction env tmpdir (k0 + k) pr') = true) →
  succeeded (extraction env tmpdir (k0 + length pre) pr) = false →
  ∃ w', separate_all env tmpdir (Z.of_nat k0 + 1) (pre ++ pr :: post) parts w
          = (inl (extraction_report pr (extraction env tmpdir (k0 + length pre) pr)), w') ∧
        log w' = log w ++ (Run <$> extraction_cmds_from tmpdir k0 (pre ++ [pr])) ∧
        ∀ p, in_dir tmpdir p = false → files w' !! p = files w !! p.
Proof.
  induction pre as [|pr0 pre IH]; intros k0 parts w Hok Hfail.
  - simpl app. rewrite separate_all_step. cbv zeta.
    simpl in Hfail. rewrite Nat.add_0_r in Hfail |- *. rewrite Hfail.
    eexists. split_and!; [done| |].
    + rewrite run_log. simpl. by rewrite Nat.add_0_r.
    + intros p Hp. apply run_files_other.
      intros ->. unfold extraction_cmd in Hp.
      rewrite last_separate_cmd in Hp. unfold part_path in Hp.
      by rewrite in_dir_path_join in Hp.
  - simpl app. rewrite separate_all_step. cbv zeta.
    pose proof (Hok 0%nat pr0 eq_refl) as Hhd.
    rewrite Nat.add_0_r in Hhd. rewrite Hhd.
    destruct (IH (S k0) (parts ++ [part_path tmpdir k0])
                (snd (run env (extraction_cmd tmpdir k0 pr0) w))) as (w' & Hres & Hlog & Hfiles).
    { intros k pr' Hk. replace (S k0 + k)%nat with (k0 + S k)%nat by lia.
      by apply Hok. }
    { by replace (S k0 + length pre)%nat with (k0 + length (pr0 :: pre))%nat
        by (simpl; lia). }
    exists w'. split_and!.
    + rewrite Hres.
      by replace (S k0 + length pre)%nat with (k0 + length (pr0 :: pre))%nat
        by (simpl; lia).
    + rewrite Hlog, run_log, <- app_assoc. f_equal. simpl. f_equal.
      * by rewrite Nat.add_0_r.
      * f_equal. unfold extraction_cmds_from. apply imap_ext.
        intros k pr' _. simpl. f_equal. lia.
    + intros p Hp. rewrite Hfiles by done. apply run_files_other.
      intros ->. unfold extraction_cmd in Hp.
      rewrite last_separate_cmd in Hp. unfold part_path in Hp.
      by rewrite in_dir_path_join in Hp.
Qed.

(** **** The body of the [with] block *)

Lemma with_tmpdir_ok out_path pages w :
  (∀ k pr, pages !! k = Some pr → succeeded (extraction env tmpdir k pr) = true) →
  let r := subprocess_run env (unite_cmd (part_paths tmpdir (length pages)) out_path) in
  ∃ w', with_tmpdir env tmpdir out_path pages w = (merge_result r, w') ∧
        log w' = log w ++ (Run <$> extraction_cmds tmpdir pages)
                       ++ [Run (unite_cmd (part_paths tmpdir (length pages)) out_path)] ∧
        files w' !! out_path = left_behind r ∧
        ∀ p, in_dir tmpdir p = false → p ≠ out_path → files w' !! p = files w !! p.
Proof.
  intros Hok r.
  destruct (separate_all_ok pages 0 [] w Hok) as (w1 & Hres & Hlog & Hfiles).
  change (Z.of_nat 0 + 1) with 1 in Hres. simpl app in Hres.
  fold (part_paths tmpdir (length pages)) in Hres.
  fold (extraction_cmds tmpdir pages) in Hlog.
  set (cmd := unite_cmd (part_paths tmpdir (length pages)) out_path).
  exists (snd (run env cmd w1)). split_and!.
  - unfold with_tmpdir. rewrite Hres. fold cmd.
    change (run env cmd w1) with (r, snd (run env cmd w1)). cbv iota beta.
    destruct r as [r|ex remains]; [|done].
    cbn [merge_result]. by destruct (returncode r =? 0).
  - by rewrite run_log, Hlog, <- app_assoc.
  - rewrite <- (last_unite_cmd (part_paths tmpdir (length pages)) out_path) at 1.
    apply run_files_dest.
  - intros p Hdir Hne. rewrite run_files_other; [by apply Hfiles|].
    subst cmd. by rewrite last_unite_cmd.
Qed.

Lemma with_tmpdir_fail out_path pre pr post w :
  (∀ k pr', pre !! k = Some pr' → succeeded (extraction env tmpdir k pr') = true) →
  succeeded (extraction env tmpdir (length pre) pr) = false →
  ∃ w', with_tmpdir env tmpdir out_path (pre ++ pr :: post) w
          = (inl (extraction_report pr (extraction env tmpdir (length pre) pr)), w') ∧
        log w' = log w ++ (Run <$> extraction_cmds tmpdir (pre ++ [pr])) ∧
        ∀ p, in_dir tmpdir p = false → files w' !! p = files w !! p.
Proof.
  intros Hok Hfail.
  destruct (separate_all_fail pre pr post 0 [] w Hok Hfail)
    as (w1 & Hres & Hlog & Hfiles).
  change (Z.of_nat 0 + 1) with 1 in Hres.
  exists w1. split_and!; [|done..].
  unfold with_tmpdir. by rewrite Hres.
Qed.

(** **** The names in sequence order *)

Lemma part_path_increasing (i j : nat) :
  (i < j)%nat → Z.of_nat j < 99999 →
  lex_lt (part_path tmpdir i) (part_path tmpdir j).
Proof.
  intros Hij Hj. unfold lex_lt, part_path, path_join.
  rewrite compare_append, compare_append.
  apply part_name_increasing; lia.
Qed.

Lemma part_paths_from_sorted n : ∀ k0,
  Z.of_nat (k0 + n) ≤ 99999 →
  StronglySorted lex_lt (part_paths_from tmpdir k0 n).
Proof.
  induction n as [|n IH]; intros k0 Hn; [constructor|].
  unfold part_paths_from. simpl. constructor.
  - apply IH. lia.
  - apply Forall_forall. intros p Hp.
    apply list_elem_of_fmap in Hp as (k & -> & Hk).
    apply elem_of_seq in Hk. apply part_path_increasing; lia.
Qed.

Lemma length_part_paths n : length (part_paths tmpdir n) = n.
Proof. unfold part_paths, part_paths_from. by rewrite length_fmap, length_seq. Qed.

Lemma lookup_part_paths n k :
  (k < n)%nat → part_paths tmpdir n !! k = Some (part_path tmpdir k).
Proof.
  intros Hk. unfold part_paths, part_paths_from.
  by rewrite list_lookup_fmap, lookup_seq_lt.
Qed.

Lemma lookup_extraction_cmds pages k pr :
  pages !! k = Some pr →
  extraction_cmds tmpdir pages !! k = Some (extraction_cmd tmpdir k pr).
Proof.
  intros Hk. unfold extraction_cmds, extraction_cmds_from.
  by rewrite list_lookup_imap, Hk.
Qed.

(** **** Leaving the temporary directory *)

Lemma cleanup_inside w p :
  in_dir tmpdir p = true → files (cleanup tmpdir w) !! p = None.
Proof.
  intros Hp. simpl. apply map_lookup_filter_None. right.
  intros c _. simpl. by rewrite Hp.
Qed.

Lemma cleanup_outside w p :
  in_dir tmpdir p = false → files (cleanup tmpdir w) !! p = files w !! p.
Proof.
  intros Hp. simpl. destruct (files w !! p) as [c|] eqn:Hl.
  - by apply map_lookup_filter_Some.
  - apply map_lookup_filter_None. by left.
Qed.

Lemma cleanup_log w : log (cleanup tmpdir w) = log w ++ [RemoveTree tmpdir].
Proof. done. Qed.

End ExportFacts.

Section CreatePdf.
Import ExportPipeline.
Variable env : Env.
Implicit Types (pages : list PageRef) (w : world).

Lemma info_box_log title text w :
  log (info_box title text w) = log w ++ [InfoBox title text].
Proof. done. Qed.

Lemma error_box_log title text w :
  log (error_box title text w) = log w ++ [ErrorBox title text].
Proof. done. Qed.

Lemma info_box_files title text w : files (info_box title text w) = files w.
Proof. done. Qed.

Lemma error_box_files title text w : files (error_box title text w) = files w.
Proof. done. Qed.

Lemma started_files w : files (started env w) = files w.
Proof. done. Qed.

Lemma started_log w : log (started env w) = log w ++ preamble (mkdtemp env).
Proof. unfold started, emit. simpl. by rewrite <- !app_assoc. Qed.

Lemma create_pdf_started pages w :
  pages ≠ [] →
  command_exists env "pdfseparate" = true →
  command_exists env "pdfunite" = true →
  getSaveFileName env ≠ "" →
  create_pdf env pages w
  = let res := with_tmpdir env (mkdtemp env) (getSaveFileName env) pages (started env w) in
    let w2 := cleanup (mkdtemp env) (snd res) in
    match fst res with
    | inr _ => info_box "Done" ("Created:" ++ nl ++ getSaveFileName env)%string w2
    | inl msg => error_box "Export error" msg w2
    end.
Proof.
  intros Hne Hsep Hunite Hout. unfold create_pdf.
  destruct pages as [|pr pages]; [done|].
  rewrite Hsep, Hunite. simpl negb. cbv iota.
  destruct (String.eqb_spec (getSaveFileName env) "") as [|_]; [done|].
  fold (started env w).
  by destruct (with_tmpdir env (mkdtemp env) (getSaveFileName env) (pr :: pages) (started env w)).
Qed.

(** The record of an export whose extractions all succeed. *)
Lemma create_pdf_all_extracted pages w :
  pages ≠ [] →
  command_exists env "pdfseparate" = true →
  command_exists env "pdfunite" = true →
  getSaveFileName env ≠ "" →
  (∀ k pr, pages !! k = Some pr →
           succeeded (extraction env (mkdtemp env) k pr) = true) →
  let tmpdir := mkdtemp env in
  let out_path := getSaveFileName env in
  let cmd := unite_cmd (part_paths tmpdir (length pages)) out_path in
  let r := subprocess_run env cmd in
  log (create_pdf env pages w)
  = log w ++ preamble tmpdir ++ (Run <$> extraction_cmds tmpdir pages)
      ++ [Run cmd; RemoveTree tmpdir; closing_box out_path r] ∧
  (in_dir tmpdir out_path = false →
     files (create_pdf env pages w) !! out_path = left_behind r) ∧
  (∀ p, in_dir tmpdir p = true → files (create_pdf env pages w) !! p = None).
Proof.
  intros Hne Hsep Hunite Hout Hok tmpdir out_path cmd r.
  rewrite create_pdf_started by done.
  destruct (with_tmpdir_ok env tmpdir out_path pages (started env w) Hok)
    as (w1 & Hres & Hlog & Hdest & Hframe).
  fold tmpdir out_path. rewrite Hres. cbv zeta. cbn [fst snd].
  fold cmd r in Hlog, Hdest |- *.
  assert (Hlog2 : log (cleanup tmpdir w1)
            = log w ++ preamble tmpdir ++ (Run <$> extraction_cmds tmpdir pages)
                ++ [Run cmd; RemoveTree tmpdir]).
  { rewrite cleanup_log, Hlog, started_log. fold tmpdir.
    rewrite <- !app_assoc. done. }
  unfold closing_box. split_and!.
  - destruct (merge_result r) as [msg|[]];
      rewrite ?info_box_log, ?error_box_log, Hlog2, <- !app_assoc; done.
  - intros Hdir. destruct (merge_result r) as [msg|[]];
      rewrite ?info_box_files, ?error_box_files; by rewrite cleanup_outside.
  - intros p Hp. destruct (merge_result r) as [msg|[]];
      rewrite ?info_box_files, ?error_box_files; by apply cleanup_inside.
Qed.

Lemma create_pdf_log_extraction pages w k pr :
  pages ≠ [] →
  command_exists env "pdfseparate" = true →
  command_exists env "pdfunite" = true →
  getSaveFileName env ≠ "" →
  (∀ k pr, pages !! k = Some pr →
           succeeded (extraction env (mkdtemp env) k pr) = true) →
  pages !! k = Some pr →
  log (create_pdf env pages w) !! (length (log w) + (4 + k))%nat
  = Some (Run (extraction_cmd (mkdtemp env) k pr)).
Proof.
  intros Hne Hsep Hunite Hout Hok Hk.
  destruct (create_pdf_all_extracted pages w Hne Hsep Hunite Hout Hok) as [-> _].
  rewrite lookup_app_r by lia.
  replace (length (log w) + (4 + k) - length (log w))%nat with (4 + k)%nat by lia.
  rewrite lookup_app_r by (simpl; lia).
  replace (4 + k - length (preamble (mkdtemp env)))%nat with k by (simpl; lia).
  rewrite lookup_app_l.
  - by rewrite list_lookup_fmap, (lookup_extraction_cmds _ _ _ _ Hk).
  - rewrite length_fmap. unfold extraction_cmds, extraction_cmds_from.
    rewrite length_imap. by apply lookup_lt_Some in Hk.
Qed.

(** The record of an export whose extraction of [pr] fails. *)
Lemma create_pdf_extraction_failed pre pr post w :
  command_exists env "pdfseparate" = true →
  command_exists env "pdfunite" = true →
  getSaveFileName env ≠ "" →
  (∀ k pr', pre !! k = Some pr' →
            succeeded (extraction env (mkdtemp env) k pr') = true) →
  succeeded (extraction env (mkdtemp env) (length pre) pr) = false →
  let tmpdir := mkdtemp env in
  let w' := create_pdf env (pre ++ pr :: post) w in
  log w' = log w ++ preamble tmpdir ++ (Run <$> extraction_cmds tmpdir (pre ++ [pr]))
             ++ [RemoveTree tmpdir;
                 ErrorBox "Export error"
                   (extraction_report pr (extraction env tmpdir (length pre) pr))] ∧
  (∀ p, in_dir tmpdir p = false → files w' !! p = files w !! p) ∧
  (∀ p, in_dir tmpdir p = true → files w' !! p = None).
Proof.
  intros Hsep Hunite Hout Hok Hfail tmpdir w'. subst w'.
  rewrite create_pdf_started; [|by destruct pre|done..].
  destruct (with_tmpdir_fail env tmpdir (getSaveFileName env) pre pr post
              (started env w) Hok Hfail) as (w1 & Hres & Hlog & Hframe).
  fold tmpdir. rewrite Hres. cbv zeta. cbn [fst snd].
  split_and!.
  - rewrite error_box_log, cleanup_log, Hlog, started_log. fold tmpdir.
    by rewrite <- !app_assoc.
  - intros p Hp. rewrite error_box_files, cleanup_outside by done.
    rewrite Hframe by done. by rewrite started_files.
  - intros p Hp. rewrite error_box_files. by apply cleanup_inside.
Qed.

(** Whatever happens, nothing is left in the temporary directory. *)
Lemma create_pdf_leaves_no_parts pages w :
  fresh_dir (mkdtemp env) w →
  ∀ p, in_dir (mkdtemp env) p = true → files (create_pdf env pages w) !! p = None.
Proof.
  intros Hfresh p Hp. unfold create_pdf.
  destruct pages as [|pr pages]; [by apply Hfresh|].
  destruct (command_exists env "pdfseparate"); [|by apply Hfresh].
  destruct (command_exists env "pdfunite"); [|by apply Hfresh].
  simpl negb. cbv iota.
  destruct (String.eqb (getSaveFileName env) ""); [by apply Hfresh|].
  destruct (with_tmpdir _ _ _ _ _) as [[msg|[]] w1];
    rewrite ?info_box_files, ?error_box_files; by apply cleanup_inside.
Qed.

End CreatePdf.

(** * The claims about the arrangement *)

Section ArrangementClaims.
Import PageList.

(** C4. Removing a set [S] of indices (with the Delete key or the context
    menu, [remove_selected], or on the trash box, [_trash_from_list]) leaves
    the original sequence restricted to the indices not in [S], in the
    original order; removing {1,3} from five items keeps the items that were
    at 0, 2 and 4; an index past the end of the sequence is ignored. *)
Theorem remove_selected_restricts :
  (∀ (A : Type) (sel : gset nat) (l : list A),
     remove_selected sel l = remaining sel l ∧
     _trash_from_list sel l = remaining sel l) ∧
  (∀ (A : Type) (a0 a1 a2 a3 a4 : A),
     remove_selected {[1%nat; 3%nat]} [a0; a1; a2; a3; a4] = [a0; a2; a4]) ∧
  (∀ (A : Type) (sel : gset nat) (l : list A) (i : nat),
     (length l ≤ i)%nat →
     remove_selected ({[i]} ∪ sel) l = remove_selected sel l).
Proof.
  split_and!.
  - intros A sel l. split; apply remove_selected_remaining.
  - intros A a0 a1 a2 a3 a4. rewrite remove_selected_remaining.
    vm_compute. reflexivity.
  - intros A sel l i Hi. rewrite !remove_selected_remaining.
    apply restrict_from_ext. intros j Hj. apply bool_decide_ext.
    rewrite not_elem_of_union, not_elem_of_singleton. intuition lia.
Qed.

(** Row 7 of a list of three items is not there to be removed. *)
Lemma remove_selected_restricts_witness :
  (length ["A"; "B"; "C"]%string ≤ 7)%nat ∧
  remove_selected ({[7%nat]} ∪ {[1%nat]}) ["A"; "B"; "C"]%string
  = remove_selected {[1%nat]} ["A"; "B"; "C"]%string.
Proof.
  split; [simpl; lia|].
  apply (proj2 (proj2 remove_selected_restricts)). simpl; lia.
Defined.

(** C1. For every sequence, every non-empty set of selected indices and
    every drop target index [t], the relocation done by [dropEvent] is the
    two-phase rule: take out the selected items in order, lower the target
    by the number of selected indices below it, and put the block back in
    one piece at that position of the remaining items.  Relocating {1,3} of
    [A,B,C,D,E] to target 4 gives [A,C,B,D,E]. *)
Theorem relocate_is_two_phase :
  (∀ (A : Type) (l : list A) (sel : gset nat) (t : Z),
     sel ≠ ∅ → 0 ≤ t →
     dropEvent (Some t) sel l = Relocated (relocate_two_phase sel t l)) ∧
  dropEvent (Some 4) {[1%nat; 3%nat]} ["A"; "B"; "C"; "D"; "E"]%string
  = Relocated ["A"; "C"; "B"; "D"; "E"]%string.
Proof.
  split.
  - intros A l sel t Hsel Ht. by apply dropEvent_two_phase.
  - vm_compute. reflexivity.
Qed.

(** The rule on the rows 1 and 3 of five items, dropped at 4. *)
Lemma relocate_is_two_phase_witness :
  ({[1%nat; 3%nat]} : gset nat) ≠ ∅ ∧ 0 ≤ 4 ∧
  dropEvent (Some 4) {[1%nat; 3%nat]} ["A"; "B"; "C"; "D"; "E"]%string
  = Relocated (relocate_two_phase {[1%nat; 3%nat]} 4 ["A"; "B"; "C"; "D"; "E"]%string).
Proof.
  assert (Hsel : ({[1%nat; 3%nat]} : gset nat) ≠ ∅).
  { intros He. assert (Hin : 1%nat ∈ ({[1%nat; 3%nat]} : gset nat)) by set_solver.
    rewrite He in Hin. by apply not_elem_of_empty in Hin. }
  split_and!; [exact Hsel|lia|].
  apply (proj1 relocate_is_two_phase); [exact Hsel|lia].
Defined.

(** C9, as stated, fails: a selection that is not one contiguous run is
    gathered into one block by the relocation, so dropping {1,3} of
    [A,B,C,D,E] on index 1, where its first item already is, gives
    [A,B,D,C,E]; no drop index of the widget gives the original back. *)
Lemma relocate_scattered_selection_moves :
  dropEvent (Some 1) {[1%nat; 3%nat]} ["A"; "B"; "C"; "D"; "E"]%string
  = Relocated ["A"; "B"; "D"; "C"; "E"]%string ∧
  adjustedTarget {[1%nat; 3%nat]} 1 = 1 ∧
  ∀ t : Z, 0 ≤ t ≤ 5 →
    dropEvent (Some t) {[1%nat; 3%nat]} ["A"; "B"; "C"; "D"; "E"]%string
    ≠ Relocated ["A"; "B"; "C"; "D"; "E"]%string.
Proof.
  split_and!; [vm_compute; reflexivity..|].
  intros t Ht.
  assert (t = 0 ∨ t = 1 ∨ t = 2 ∨ t = 3 ∨ t = 4 ∨ t = 5) as Hcases by lia.
  destruct Hcases as [->|[->|[->|[->|[->| ->]]]]]; vm_compute; discriminate.
Qed.

(** C9, amended.  A selection that is a contiguous run of [m > 0] indices
    from [a] on, dropped on any target [t] with [a ≤ t ≤ a + m] (the targets
    whose adjusted index is [a], the place the block already has), leaves
    the sequence as it was; for any non-empty selection and any target
    [t ≥ 0] the items stay the same up to their order. *)
Theorem relocate_in_place :
  ∀ (A : Type) (l : list A),
    (∀ (a m : nat) (t : Z),
       (0 < m)%nat → Z.of_nat a ≤ t ≤ Z.of_nat a + Z.of_nat m →
       adjustedTarget (set_seq a m) t = Z.of_nat a ∧
       dropEvent (Some t) (set_seq a m) l = Relocated l) ∧
    (∀ (sel : gset nat) (t : Z),
       sel ≠ ∅ → 0 ≤ t →
       ∃ l', dropEvent (Some t) sel l = Relocated l' ∧ l' ≡ₚ l).
Proof.
  intros A l. split.
  - intros a m t Hm Ht. split; [by apply adjustedTarget_run|].
    rewrite dropEvent_two_phase; [|..|lia].
    + f_equal. by apply relocate_run_in_place.
    + intros He. assert (Hin : a ∈ (set_seq a m : gset nat))
        by (apply elem_of_set_seq; lia).
      rewrite He in Hin. by apply not_elem_of_empty in Hin.
  - intros sel t Hsel Ht. exists (relocate_two_phase sel t l).
    split; [by apply dropEvent_two_phase|apply relocate_two_phase_perm].
Qed.

(** The block [B, C] of five items dropped in its own middle. *)
Lemma relocate_in_place_witness :
  (0 < 2)%nat ∧ Z.of_nat 1 ≤ 2 ≤ Z.of_nat 1 + Z.of_nat 2 ∧
  dropEvent (Some 2) (set_seq 1 2) ["A"; "B"; "C"; "D"; "E"]%string
  = Relocated ["A"; "B"; "C"; "D"; "E"]%string.
Proof.
  split_and!; [lia|simpl; lia|simpl; lia|].
  apply (proj1 (relocate_in_place string ["A"; "B"; "C"; "D"; "E"]%string) 1%nat 2%nat 2);
    [lia|simpl; lia].
Defined.

(** C10. For every sequence, every non-empty set of valid selected indices
    and every drop index in [0 .. count], the relocation done on a drop is a
    permutation of the sequence: the length is the same, every item occurs
    as often as before, and the rows are again [0 .. count-1]. *)
Theorem relocate_permutation :
  ∀ (A : Type) (l : list A) (sel : gset nat) (t : Z),
    sel ≠ ∅ →
    (∀ i, i ∈ sel → (i < length l)%nat) →
    0 ≤ t ≤ Z.of_nat (length l) →
    ∃ l', dropEvent (Some t) sel l = Relocated l' ∧
          l' ≡ₚ l ∧
          length l' = length l ∧
          (∀ i, is_Some (l' !! i) ↔ (i < length l)%nat) ∧
          (∀ (eq_dec : ∀ x y : A, {x = y} + {x ≠ y}) (x : A),
             count_occ eq_dec l' x = count_occ eq_dec l x).
Proof.
  intros A l sel t Hsel _ [Ht _].
  exists (relocate_two_phase sel t l).
  pose proof (relocate_two_phase_perm sel t l) as Hperm.
  split_and!.
  - by apply dropEvent_two_phase.
  - done.
  - by apply Permutation_length.
  - intros i. rewrite lookup_lt_is_Some. by rewrite (Permutation_length Hperm).
  - intros eq_dec x. by apply Permutation_count_occ.
Qed.

(** The rows 1 and 3 of five items, dropped at 4, are only moved. *)
Lemma relocate_permutation_witness :
  ({[1%nat; 3%nat]} : gset nat) ≠ ∅ ∧
  (∀ i, i ∈ ({[1%nat; 3%nat]} : gset nat) →
        (i < length ["A"; "B"; "C"; "D"; "E"]%string)%nat) ∧
  0 ≤ 4 ≤ Z.of_nat (length ["A"; "B"; "C"; "D"; "E"]%string) ∧
  ∃ l', dropEvent (Some 4) {[1%nat; 3%nat]} ["A"; "B"; "C"; "D"; "E"]%string = Relocated l' ∧
        l' ≡ₚ ["A"; "B"; "C"; "D"; "E"]%string.
Proof.
  assert (Hsel : ({[1%nat; 3%nat]} : gset nat) ≠ ∅).
  { intros He. assert (Hin : 1%nat ∈ ({[1%nat; 3%nat]} : gset nat)) by set_solver.
    rewrite He in Hin. by apply not_elem_of_empty in Hin. }
  assert (Hvalid : ∀ i, i ∈ ({[1%nat; 3%nat]} : gset nat) →
                        (i < length ["A"; "B"; "C"; "D"; "E"]%string)%nat).
  { intros i Hi. apply elem_of_union in Hi as [Hi|Hi];
      apply elem_of_singleton in Hi; subst i; simpl; lia. }
  assert (Ht : 0 ≤ 4 ≤ Z.of_nat (length ["A"; "B"; "C"; "D"; "E"]%string)) by (simpl; lia).
  split_and!; [exact Hsel|exact Hvalid|lia|simpl; lia|].
  destruct (relocate_permutation string ["A"; "B"; "C"; "D"; "E"]%string {[1%nat; 3%nat]} 4
              Hsel Hvalid Ht) as (l' & Hdrop & Hperm & _).
  exists l'. by split.
Defined.

End ArrangementClaims.
(** * The claims about the drop planner *)

Section PlannerClaims.
Import Planner.

(** C6. On an empty collection the planner answers [(0, true)].  On a
    collection where no item's span, widened by the tolerance, holds the
    pointer's y-coordinate, it answers [(0, true)] when the pointer is above
    the first item and [(lastIndex, false)] otherwise. *)
Theorem planner_outside_rows :
  ∀ (spacing : Z) (rects : list QRect) (pos : QPoint),
    (rects = [] →
       target (_compute_drop_position spacing rects pos) = (0%nat, true)) ∧
    (∀ first_rect,
       rects !! 0%nat = Some first_rect →
       (∀ i, ¬ in_active_row spacing rects pos i) →
       (py pos < top first_rect →
          _compute_drop_position spacing rects pos = (0%nat, first_rect, true)) ∧
       (¬ py pos < top first_rect →
          ∃ last_rect,
            rects !! (length rects - 1)%nat = Some last_rect ∧
            _compute_drop_position spacing rects pos
            = ((length rects - 1)%nat, last_rect, false))).
Proof.
  intros spacing rects pos. split; [by intros ->|].
  intros first_rect Hfirst Hnone.
  destruct rects as [|r0 rects]; [done|]. injection Hfirst as ->.
  assert (Hall : Forall (λ r, in_row_span spacing pos r = false) (first_rect :: rects)).
  { apply Forall_forall. intros r Hr.
    apply list_elem_of_lookup in Hr as [i Hi].
    destruct (in_row_span spacing pos r) eqn:Hs; [|done].
    destruct (Hnone i). by exists r. }
  rewrite planner_outside by done.
  split.
  - intros Habove. by rewrite (proj2 (Z.ltb_lt _ _) Habove).
  - intros Hnot. rewrite (proj2 (Z.ltb_ge _ _)) by lia.
    exists (List.last (first_rect :: rects) first_rect).
    replace (length (first_rect :: rects) - 1)%nat with (length rects)
      by (simpl; lia).
    split; [apply lookup_last_cons|done].
Qed.

(** Two items side by side and a pointer far below them. *)
Lemma planner_outside_rows_witness :
  let rects := [mkRect 1 0 99 100; mkRect 101 0 199 100] in
  rects !! 0%nat = Some (mkRect 1 0 99 100) ∧
  (∀ i, ¬ in_active_row 10 rects (mkPoint 60 300) i) ∧
  ¬ py (mkPoint 60 300) < top (mkRect 1 0 99 100) ∧
  ∃ last_rect,
    rects !! (length rects - 1)%nat = Some last_rect ∧
    _compute_drop_position 10 rects (mkPoint 60 300) = (1%nat, last_rect, false).
Proof.
  intros rects.
  assert (Hnone : ∀ i, ¬ in_active_row 10 rects (mkPoint 60 300) i).
  { intros i (r & Hr & Hs). destruct i as [|[|i]]; simpl in Hr; [| |done];
      injection Hr as <-; vm_compute in Hs; discriminate. }
  assert (Hbelow : ¬ py (mkPoint 60 300) < top (mkRect 1 0 99 100))
    by (simpl; unfold top; simpl; lia).
  split_and!; [reflexivity|exact Hnone|exact Hbelow|].
  exact (proj2 (proj2 (planner_outside_rows 10 rects (mkPoint 60 300))
                  (mkRect 1 0 99 100) eq_refl Hnone) Hbelow).
Defined.

(** C3. When the row under the pointer is not empty, the planner answers
    [(i, true)] for the first item [i] of that row, from left to right,
    whose horizontal center is strictly right of the pointer's x, and
    [(rightmost, false)] when the pointer's x is at or right of every center
    of the row.  So, for two items of one row with centers at 50 and 150,
    x = 49 targets the place before the left item, x = 51 the place before
    the right item, and x = 151 the place after the right item. *)
Theorem planner_center_rule :
  (∀ (spacing : Z) (rects : list QRect) (pos : QPoint),
     (∃ i, in_active_row spacing rects pos i) →
     ((∃ i r, in_active_row spacing rects pos i ∧ rects !! i = Some r ∧
              px pos < center_x r) →
        ∃ idx rect,
          _compute_drop_position spacing rects pos = (idx, rect, true) ∧
          rects !! idx = Some rect ∧
          first_past_pointer spacing rects pos idx) ∧
     ((∀ j r, in_active_row spacing rects pos j → rects !! j = Some r →
              center_x r ≤ px pos) →
        ∃ idx rect,
          _compute_drop_position spacing rects pos = (idx, rect, false) ∧
          rects !! idx = Some rect ∧
          rightmost_of_row spacing rects pos idx)) ∧
  (∀ (spacing : Z) (rA rB : QRect) (y : Z),
     in_row_span spacing (mkPoint 0 y) rA = true →
     in_row_span spacing (mkPoint 0 y) rB = true →
     left rA ≤ left rB →
     center_x rA = 50 → center_x rB = 150 →
     target (_compute_drop_position spacing [rA; rB] (mkPoint 49 y)) = (0%nat, true) ∧
     target (_compute_drop_position spacing [rA; rB] (mkPoint 51 y)) = (1%nat, true) ∧
     target (_compute_drop_position spacing [rA; rB] (mkPoint 151 y)) = (1%nat, false)).
Proof.
  split.
  - intros spacing rects pos Hrow. split.
    + intros (i & r & Hact & Hi & Hc). by eapply planner_first_past.
    + intros Hall. by apply planner_rightmost.
  - intros spacing rA rB y HA HB Hleft HcA HcB.
    assert (Hspan : ∀ x r, in_row_span spacing (mkPoint x y) r
                           = in_row_span spacing (mkPoint 0 y) r) by done.
    assert (Hcompute : ∀ x,
      _compute_drop_position spacing [rA; rB] (mkPoint x y)
      = if x <? 50 then (0%nat, rA, true)
        else if x <? 150 then (1%nat, rB, true) else (1%nat, rB, false)).
    { intros x. unfold _compute_drop_position. cbn [collect_row].
      rewrite (Hspan x rA), (Hspan x rB), HA, HB.
      cbn [sort_by_left insert_by_left snd].
      rewrite (proj2 (Z.leb_le _ _) Hleft). cbn [walk_row px].
      rewrite HcA, HcB.
      destruct (x <? 50); [done|]. by destruct (x <? 150). }
    rewrite !Hcompute. done.
Qed.

(** Two items of one row, 99 wide, with their centers at 50 and 150. *)
Lemma planner_center_rule_witness :
  let rA := mkRect 1 0 99 100 in
  let rB := mkRect 101 0 199 100 in
  in_row_span 10 (mkPoint 0 50) rA = true ∧
  in_row_span 10 (mkPoint 0 50) rB = true ∧
  left rA ≤ left rB ∧ center_x rA = 50 ∧ center_x rB = 150 ∧
  target (_compute_drop_position 10 [rA; rB] (mkPoint 49 50)) = (0%nat, true) ∧
  target (_compute_drop_position 10 [rA; rB] (mkPoint 51 50)) = (1%nat, true) ∧
  target (_compute_drop_position 10 [rA; rB] (mkPoint 151 50)) = (1%nat, false).
Proof.
  intros rA rB.
  assert (HA : in_row_span 10 (mkPoint 0 50) rA = true) by reflexivity.
  assert (HB : in_row_span 10 (mkPoint 0 50) rB = true) by reflexivity.
  assert (Hleft : left rA ≤ left rB) by (vm_compute; discriminate).
  assert (HcA : center_x rA = 50) by reflexivity.
  assert (HcB : center_x rB = 150) by reflexivity.
  split_and!; [exact HA|exact HB|exact Hleft|exact HcA|exact HcB|..];
    apply (proj2 planner_center_rule 10 rA rB 50 HA HB Hleft HcA HcB).
Defined.

(** The index that the planner answers is a row of the list. *)
Lemma compute_drop_position_index spacing rects pos :
  rects ≠ [] →
  (fst (fst (_compute_drop_position spacing rects pos)) < length rects)%nat.
Proof.
  intros Hne.
  destruct (collect_row spacing pos 0 rects) as [|e0 row0] eqn:Hrow.
  - destruct rects as [|first_rect rects]; [done|].
    unfold _compute_drop_position. rewrite Hrow.
    destruct (py pos <? top first_rect); simpl; lia.
  - assert (Hin : ∀ i r, (i, r) ∈ sort_by_left (collect_row spacing pos 0 rects) →
                         (i < length rects)%nat).
    { intros i r Hi. rewrite sort_by_left_perm in Hi.
      apply collect_row_active in Hi as [Hi _]. by apply lookup_lt_Some in Hi. }
    assert (Hsorted : StronglySorted entry_lt
                        (sort_by_left (collect_row spacing pos 0 rects)))
      by apply sort_by_left_sorted, collect_row_by_index.
    rewrite compute_on_row by (by rewrite Hrow). cbv zeta.
    destruct (walk_row pos _) as [res|] eqn:Hw.
    + destruct (walk_row_Some _ _ _ Hsorted Hw) as (i & r & -> & Hi & _).
      simpl. by eapply Hin.
    + simpl.
      destruct (last_of_sorted _ (0%nat, QRect_xywh 0 0 0 0) Hsorted) as [Hlast _].
      { intros Hnil. pose proof (sort_by_left_perm (collect_row spacing pos 0 rects)) as Hp.
        rewrite Hnil, Hrow in Hp. by apply Permutation_nil_l in Hp. }
      destruct (List.last _ _) as [i r]. simpl. by eapply Hin.
Qed.

(** X7. The drop index that [dragMoveEvent] stores always lies in
    [0 .. count], whatever the rectangles of the items and wherever the
    pointer is. *)
Lemma dragMoveEvent_in_range spacing rects pos :
  ∃ t, dragMoveEvent spacing rects pos = Some t ∧ 0 ≤ t ≤ Z.of_nat (length rects).
Proof.
  unfold dragMoveEvent.
  destruct rects as [|r rects]; [by exists 0|].
  pose proof (compute_drop_position_index spacing (r :: rects) pos) as Hidx.
  destruct (_compute_drop_position spacing (r :: rects) pos) as [[idx rect] before].
  simpl fst in Hidx. specialize (Hidx ltac:(done)).
  eexists; split; [done|]. destruct before; lia.
Qed.

End PlannerClaims.
(** * The claims about the export *)

Section ExportClaims.
Import ExportPipeline Examples.

(** C8. An export of an arrangement without pages tells the user that there
    is nothing to export and comes back: the only thing it does to the
    outside is that message (no look-up of a tool, no extraction, no merge),
    and the files are as they were. *)
Theorem empty_arrangement_not_exported :
  ∀ (env : Env) (w : world),
    log (create_pdf env [] w)
    = log w ++ [InfoBox "Nothing to export" "Add pages first."] ∧
    files (create_pdf env [] w) = files w.
Proof. intros env w. split; reflexivity. Qed.

(** C7, as stated, fails: the counter in the name of a part is padded to
    five digits, so in an export of 100000 pages the part of page 100000 is
    named [part_100000.pdf], which sorts before [part_99999.pdf], the part
    extracted just before it.  (The merge over that many parts cannot be
    started here, and the export ends with the text of that error.) *)
Lemma part_names_out_of_order_past_99999 :
  let pages := replicate (Z.to_nat 100000) page_a in
  let w' := create_pdf env_long pages nothing in
  log w' !! Z.to_nat 100002
  = Some (Run (separate_cmd page_a "/tmp/pdfkiwi_k1w1/part_99999.pdf")) ∧
  log w' !! Z.to_nat 100003
  = Some (Run (separate_cmd page_a "/tmp/pdfkiwi_k1w1/part_100000.pdf")) ∧
  lex_lt "/tmp/pdfkiwi_k1w1/part_100000.pdf" "/tmp/pdfkiwi_k1w1/part_99999.pdf" ∧
  last (log w')
  = Some (ErrorBox "Export error" "[Errno 7] Argument list too long: 'pdfunite'").
Proof.
  intros pages w'.
  assert (Hne : pages ≠ []).
  { intros Hnil. apply (f_equal length) in Hnil. subst pages.
    rewrite length_replicate in Hnil. change (length []) with 0%nat in Hnil. lia. }
  assert (Hok : ∀ k pr, pages !! k = Some pr →
                        succeeded (extraction env_long (mkdtemp env_long) k pr) = true)
    by (intros; reflexivity).
  assert (Hat : ∀ k, (k < Z.to_nat 100000)%nat →
            log w' !! (4 + k)%nat
            = Some (Run (separate_cmd page_a (part_path "/tmp/pdfkiwi_k1w1" k)))).
  { intros k Hk.
    assert (Hpage : pages !! k = Some page_a)
      by (subst pages; by apply lookup_replicate_2).
    exact (create_pdf_log_extraction env_long pages nothing k page_a
             Hne eq_refl eq_refl ltac:(discriminate) Hok Hpage). }
  assert (Hout : getSaveFileName env_long ≠ ""%string) by discriminate.
  split_and!; [| | |
    destruct (create_pdf_all_extracted env_long pages nothing
                Hne eq_refl eq_refl Hout Hok) as [Hlog _];
    subst w'; rewrite Hlog, !app_assoc;
    match goal with
    | |- last (?l ++ [?a; ?b; ?c]) = _ =>
        change (l ++ [a; b; c]) with (l ++ [a; b] ++ [c])
    end;
    rewrite app_assoc; rewrite last_snoc; reflexivity].
  - replace (Z.to_nat 100002) with (4 + Z.to_nat 99998)%nat by lia.
    rewrite Hat by lia.
    apply (f_equal (λ p, Some (Run (separate_cmd page_a p)))).
    vm_compute. reflexivity.
  - replace (Z.to_nat 100003) with (4 + Z.to_nat 99999)%nat by lia.
    rewrite Hat by lia.
    apply (f_equal (λ p, Some (Run (separate_cmd page_a p)))).
    vm_compute. reflexivity.
  - vm_compute. reflexivity.
Qed.

(** C7, amended.  For every sequence of pages, an export that gets as far
    as the merge has run one extraction per page, in sequence order, the
    [k]-th into [part_<k>.pdf] of the temporary directory with [k] counted
    from 1 and padded with zeros to five digits, and has then called the
    merge over these files in sequence order with the output path as its
    destination.  The export ends with [Done] when that call returns 0,
    with [pdfunite failed:] when it returns another code, and with the
    text of the exception when the call itself raises.  The lexical order
    of the names is the sequence order as long as there are at most 99999
    pages. *)
Theorem export_splits_then_merges :
  ∀ (env : Env) (pages : list PageRef) (w : world),
    pages ≠ [] →
    command_exists env "pdfseparate" = true →
    command_exists env "pdfunite" = true →
    getSaveFileName env ≠ ""%string →
    (∀ k pr, pages !! k = Some pr →
             succeeded (extraction env (mkdtemp env) k pr) = true) →
    let tmpdir := mkdtemp env in
    let out_path := getSaveFileName env in
    let parts := part_paths tmpdir (length pages) in
    let merge := unite_cmd parts out_path in
    log (create_pdf env pages w)
    = log w ++ preamble tmpdir ++ (Run <$> extraction_cmds tmpdir pages)
        ++ [Run merge; RemoveTree tmpdir;
            match subprocess_run env merge with
            | Returned r =>
                if returncode r =? 0
                then InfoBox "Done" ("Created:" ++ nl ++ out_path)%string
                else ErrorBox "Export error" ("pdfunite failed:" ++ nl ++ stderr r)%string
            | Raised ex _ => ErrorBox "Export error" ex
            end] ∧
    length (extraction_cmds tmpdir pages) = length pages ∧
    length parts = length pages ∧
    (∀ k pr, pages !! k = Some pr →
       parts !! k = Some (path_join tmpdir (part_name (Z.of_nat k + 1))) ∧
       extraction_cmds tmpdir pages !! k
       = Some (separate_cmd pr (path_join tmpdir (part_name (Z.of_nat k + 1))))) ∧
    merge = ("pdfunite" :: parts ++ [out_path]) ∧
    (Z.of_nat (length pages) ≤ 99999 → StronglySorted lex_lt parts).
Proof.
  intros env pages w Hne Hsep Hunite Hout Hok tmpdir out_path parts merge.
  split_and!.
  - destruct (create_pdf_all_extracted env pages w Hne Hsep Hunite Hout Hok) as [-> _].
    fold tmpdir out_path parts merge. do 4 f_equal.
    unfold closing_box, merge_result, unite_failure.
    destruct (subprocess_run env merge) as [r|ex remains]; [|done].
    by destruct (returncode r =? 0).
  - unfold extraction_cmds, extraction_cmds_from. apply length_imap.
  - apply length_part_paths.
  - intros k pr Hk. split.
    + apply lookup_part_paths. by apply lookup_lt_Some in Hk.
    + by apply lookup_extraction_cmds.
  - done.
  - intros Hn. by apply part_paths_from_sorted.
Qed.

(** Two pages, both tools at hand and ending well. *)
Lemma export_splits_then_merges_witness :
  [page_a; page_a] ≠ [] ∧
  command_exists env_ok "pdfseparate" = true ∧
  command_exists env_ok "pdfunite" = true ∧
  getSaveFileName env_ok ≠ ""%string ∧
  (∀ k pr, [page_a; page_a] !! k = Some pr →
           succeeded (extraction env_ok (mkdtemp env_ok) k pr) = true) ∧
  Z.of_nat (length [page_a; page_a]) ≤ 99999 ∧
  StronglySorted lex_lt (part_paths (mkdtemp env_ok) (length [page_a; page_a])).
Proof.
  assert (Hne : [page_a; page_a] ≠ []) by discriminate.
  assert (Hout : getSaveFileName env_ok ≠ ""%string) by discriminate.
  assert (Hok : ∀ k pr, [page_a; page_a] !! k = Some pr →
                        succeeded (extraction env_ok (mkdtemp env_ok) k pr) = true)
    by (intros; reflexivity).
  assert (Hn : Z.of_nat (length [page_a; page_a]) ≤ 99999) by (simpl; lia).
  split_and!; [exact Hne|reflexivity|reflexivity|exact Hout|exact Hok|exact Hn|].
  exact (proj2 (proj2 (proj2 (proj2 (proj2
           (export_splits_then_merges env_ok [page_a; page_a] nothing
              Hne eq_refl eq_refl Hout Hok))))) Hn).
Defined.

(** C5, as stated, fails: when the call of the tool itself raises (here
    the third of five extractions prints a byte that does not decode as
    text), the export stops there and cleans up, but its error box shows
    only the text of that exception, in which neither the document nor
    the page is named. *)
Lemma raised_extraction_unnamed :
  let pages := [page_a; page_a; page_a; page_a; page_a] in
  let w' := create_pdf env_third_raises pages nothing in
  let text := "'utf-8' codec can't decode byte 0xff in position 0: invalid start byte"%string in
  extraction env_third_raises (mkdtemp env_third_raises) 2 page_a
  = Raised text (Some "%PDF-1.7"%string) ∧
  log w'
  = [Which "pdfseparate"; Which "pdfunite"; SaveDialog;
     MakeTempDir "/tmp/pdfkiwi_k1w1";
     Run (separate_cmd page_a "/tmp/pdfkiwi_k1w1/part_00001.pdf");
     Run (separate_cmd page_a "/tmp/pdfkiwi_k1w1/part_00002.pdf");
     Run (separate_cmd page_a "/tmp/pdfkiwi_k1w1/part_00003.pdf");
     RemoveTree "/tmp/pdfkiwi_k1w1";
     ErrorBox "Export error" text] ∧
  String.index 0 (basename (src_path page_a)) text = None ∧
  String.index 0 "page" text = None ∧
  files w' = ∅.
Proof.
  intros pages w' text. split_and!.
  - vm_compute. reflexivity.
  - vm_compute. reflexivity.
  - vm_compute. reflexivity.
  - vm_compute. reflexivity.
  - vm_compute. reflexivity.
Qed.

(** C5, amended.  When the extraction of one page fails, the export stops
    there: the pages after it are not extracted and the merge is not run,
    so nothing is written at the output path (what was there stays), and
    the temporary files are gone.  When the call of the tool has returned
    (with a return code other than 0, or without its file), the error box
    names the source document, the page and what the tool wrote on stderr;
    when the call itself has raised, the box shows the text of that
    exception and nothing else.  On every way out of an export, with or
    without a failure, nothing is left in the temporary directory. *)
Theorem extraction_failure_aborts :
  (∀ (env : Env) (pre : list PageRef) (pr : PageRef) (post : list PageRef) (w : world),
     command_exists env "pdfseparate" = true →
     command_exists env "pdfunite" = true →
     getSaveFileName env ≠ ""%string →
     fresh_dir (mkdtemp env) w →
     (∀ k pr', pre !! k = Some pr' →
               succeeded (extraction env (mkdtemp env) k pr') = true) →
     succeeded (extraction env (mkdtemp env) (length pre) pr) = false →
     let tmpdir := mkdtemp env in
     let w' := create_pdf env (pre ++ pr :: post) w in
     log w'
     = log w ++ preamble tmpdir ++ (Run <$> extraction_cmds tmpdir (pre ++ [pr]))
         ++ [RemoveTree tmpdir;
             ErrorBox "Export error"
               match extraction env tmpdir (length pre) pr with
               | Returned r =>
                   ("pdfseparate failed for " ++ basename (src_path pr) ++ " page "
                      ++ str (page_index pr + 1) ++ nl ++ stderr r)%string
               | Raised ex _ => ex
               end] ∧
     files w' !! getSaveFileName env = files w !! getSaveFileName env ∧
     (∀ p, in_dir tmpdir p = true → files w' !! p = None)) ∧
  (∀ (env : Env) (pages : list PageRef) (w : world),
     fresh_dir (mkdtemp env) w →
     ∀ p, in_dir (mkdtemp env) p = true → files (create_pdf env pages w) !! p = None).
Proof.
  split.
  - intros env pre pr post w Hsep Hunite Hout Hfresh Hok Hfail tmpdir w'.
    destruct (create_pdf_extraction_failed env pre pr post w Hsep Hunite Hout Hok Hfail)
      as (Hlog & Hframe & Hclean).
    fold tmpdir w' in Hlog, Hframe, Hclean.
    split_and!; [exact Hlog| |exact Hclean].
    destruct (in_dir tmpdir (getSaveFileName env)) eqn:Hdir.
    + rewrite Hclean by done. symmetry. by apply Hfresh.
    + by apply Hframe.
  - intros env pages w Hfresh p Hp. by apply create_pdf_leaves_no_parts.
Qed.

(** Five pages, the extraction of the third of which returns 1 and leaves
    no file. *)
Lemma extraction_failure_aborts_witness :
  let pre := [page_a; page_a] in
  let post := [page_a; page_a] in
  command_exists env_third_fails "pdfseparate" = true ∧
  command_exists env_third_fails "pdfunite" = true ∧
  getSaveFileName env_third_fails ≠ ""%string ∧
  fresh_dir (mkdtemp env_third_fails) nothing ∧
  (∀ k pr', pre !! k = Some pr' →
     succeeded (extraction env_third_fails (mkdtemp env_third_fails) k pr') = true) ∧
  succeeded (extraction env_third_fails (mkdtemp env_third_fails) (length pre) page_a)
  = false ∧
  files (create_pdf env_third_fails (pre ++ page_a :: post) nothing)
    !! getSaveFileName env_third_fails
  = files nothing !! getSaveFileName env_third_fails ∧
  (∀ p, in_dir (mkdtemp env_third_fails) p = true →
        files (create_pdf env_third_fails (pre ++ page_a :: post) nothing) !! p = None).
Proof.
  intros pre post.
  assert (Hout : getSaveFileName env_third_fails ≠ ""%string) by discriminate.
  assert (Hfresh : fresh_dir (mkdtemp env_third_fails) nothing)
    by (intros p _; apply lookup_empty).
  assert (Hok : ∀ k pr', pre !! k = Some pr' →
     succeeded (extraction env_third_fails (mkdtemp env_third_fails) k pr') = true).
  { intros k pr' Hk. destruct k as [|[|k]]; simpl in Hk; [| |done];
      injection Hk as <-; vm_compute; reflexivity. }
  assert (Hfail : succeeded (extraction env_third_fails (mkdtemp env_third_fails)
                               (length pre) page_a) = false)
    by (vm_compute; reflexivity).
  destruct (proj1 extraction_failure_aborts env_third_fails pre page_a post nothing
              eq_refl eq_refl Hout Hfresh Hok Hfail) as (_ & Hkept & Hclean).
  split_and!; [reflexivity|reflexivity|exact Hout|exact Hfresh|exact Hok|exact Hfail
              |exact Hkept|exact Hclean].
Defined.

(** C2, as stated, fails: the merge is given the output path itself as its
    destination, and after a merge that fails the export only reports; a
    file that the failed merge has begun to write is left at the output
    path. *)
Lemma failed_merge_leaves_its_output :
  let pages := [page_a; page_a] in
  let w' := create_pdf env_merge_fails pages nothing in
  (∀ k pr, pages !! k = Some pr →
     succeeded (extraction env_merge_fails (mkdtemp env_merge_fails) k pr) = true) ∧
  subprocess_run env_merge_fails
    (unite_cmd (part_paths (mkdtemp env_merge_fails) (length pages))
       (getSaveFileName env_merge_fails))
  = Returned (mkCompleted 1 "Error: could not write" (Some "%PDF-1.7 (cut short)"%string)) ∧
  files nothing !! getSaveFileName env_merge_fails = None ∧
  files w' !! getSaveFileName env_merge_fails = Some "%PDF-1.7 (cut short)"%string ∧
  List.last (log w') SaveDialog
  = ErrorBox "Export error" ("pdfunite failed:" ++ nl ++ "Error: could not write")%string.
Proof.
  intros pages w'. split_and!.
  - intros k pr Hk. destruct k as [|[|k]]; simpl in Hk; [| |done];
      injection Hk as <-; vm_compute; reflexivity.
  - vm_compute. reflexivity.
  - vm_compute. reflexivity.
  - vm_compute. reflexivity.
  - vm_compute. reflexivity.
Qed.

(** C2, amended.  When the merge fails after every extraction succeeded,
    the export removes the temporary files and reports: [pdfunite failed:]
    with what the tool wrote on stderr when the call of the merge has
    returned a code other than 0, the text of the exception when the call
    itself has raised.  The output path, which was the destination of the
    merge, holds what the failed merge left there. *)
Theorem merge_failure_reported :
  ∀ (env : Env) (pages : list PageRef) (w : world),
    pages ≠ [] →
    command_exists env "pdfseparate" = true →
    command_exists env "pdfunite" = true →
    getSaveFileName env ≠ ""%string →
    in_dir (mkdtemp env) (getSaveFileName env) = false →
    (∀ k pr, pages !! k = Some pr →
             succeeded (extraction env (mkdtemp env) k pr) = true) →
    let tmpdir := mkdtemp env in
    let out_path := getSaveFileName env in
    let merge := unite_cmd (part_paths tmpdir (length pages)) out_path in
    (∀ r, subprocess_run env merge = Returned r → returncode r ≠ 0) →
    let w' := create_pdf env pages w in
    log w'
    = log w ++ preamble tmpdir ++ (Run <$> extraction_cmds tmpdir pages)
        ++ [Run merge; RemoveTree tmpdir;
            ErrorBox "Export error"
              match subprocess_run env merge with
              | Returned r => ("pdfunite failed:" ++ nl ++ stderr r)%string
              | Raised ex _ => ex
              end] ∧
    files w' !! out_path
    = match subprocess_run env merge with
      | Returned r => at_destination r
      | Raised _ remains => remains
      end ∧
    (∀ p, in_dir tmpdir p = true → files w' !! p = None).
Proof.
  intros env pages w Hne Hsep Hunite Hout Hdir Hok tmpdir out_path merge Hrc w'.
  destruct (create_pdf_all_extracted env pages w Hne Hsep Hunite Hout Hok)
    as (Hlog & Hdest & Hclean).
  fold tmpdir out_path merge w' in Hlog, Hdest, Hclean.
  split_and!; [|by apply Hdest|exact Hclean].
  rewrite Hlog. do 4 f_equal.
  unfold closing_box, merge_result, unite_failure.
  destruct (subprocess_run env merge) as [r|ex remains]; [|done].
  by rewrite (proj2 (Z.eqb_neq _ _) (Hrc r eq_refl)).
Qed.

(** Two pages extracted, and a merge that returns 1. *)
Lemma merge_failure_reported_witness :
  let pages := [page_a; page_a] in
  let env := env_merge_fails in
  let merge := unite_cmd (part_paths (mkdtemp env) (length pages)) (getSaveFileName env) in
  pages ≠ [] ∧
  command_exists env "pdfseparate" = true ∧
  command_exists env "pdfunite" = true ∧
  getSaveFileName env ≠ ""%string ∧
  in_dir (mkdtemp env) (getSaveFileName env) = false ∧
  (∀ k pr, pages !! k = Some pr →
           succeeded (extraction env (mkdtemp env) k pr) = true) ∧
  (∀ r, subprocess_run env merge = Returned r → returncode r ≠ 0) ∧
  files (create_pdf env pages nothing) !! getSaveFileName env
  = Some "%PDF-1.7 (cut short)"%string.
Proof.
  intros pages env merge.
  assert (Hne : pages ≠ []) by discriminate.
  assert (Hout : getSaveFileName env ≠ ""%string) by discriminate.
  assert (Hdir : in_dir (mkdtemp env) (getSaveFileName env) = false) by reflexivity.
  assert (Hok : ∀ k pr, pages !! k = Some pr →
                        succeeded (extraction env (mkdtemp env) k pr) = true).
  { intros k pr Hk. destruct k as [|[|k]]; simpl in Hk; [| |done];
      injection Hk as <-; vm_compute; reflexivity. }
  assert (Hrc : ∀ r, subprocess_run env merge = Returned r → returncode r ≠ 0).
  { intros r Hr. vm_compute in Hr. injection Hr as <-. vm_compute. discriminate. }
  destruct (merge_failure_reported env pages nothing Hne eq_refl eq_refl Hout Hdir Hok Hrc)
    as (_ & Hdest & _).
  split_and!; [exact Hne|reflexivity|reflexivity|exact Hout|exact Hdir|exact Hok|exact Hrc
              |exact Hdest].
Defined.

End ExportClaims.

(** * More about the arrangement *)

Section ArrangementMore.
Context {A : Type}.
Implicit Types (l : list A) (sel : gset nat).
Import PageList.

(** **** Counting the rows of a selection *)

Lemma filter_below_succ sel (n : nat) :
  filter (λ i, (i < S n)%nat) sel
  = filter (λ i, (i < n)%nat) sel ∪ (if bool_decide (n ∈ sel) then {[n]} else ∅).
Proof.
  apply set_eq. intros i.
  rewrite elem_of_union, !elem_of_filter.
  case_bool_decide as Hn.
  - rewrite elem_of_singleton. split.
    + intros [Hi Hs]. destruct (decide (i = n)); [by right|left; split; [lia|done]].
    + intros [[Hi Hs]| ->]; split; [lia|done|lia|done].
  - rewrite elem_of_empty. split.
    + intros [Hi Hs]. left. split; [|done].
      destruct (decide (i = n)) as [->|]; [done|lia].
    + intros [[Hi Hs]|[]]. split; [lia|done].
Qed.

Lemma size_filter_below_succ sel (n : nat) :
  size (filter (λ i, (i < S n)%nat) sel)
  = (size (filter (λ i, (i < n)%nat) sel) + (if bool_decide (n ∈ sel) then 1 else 0))%nat.
Proof.
  rewrite filter_below_succ. case_bool_decide.
  - rewrite size_union, size_singleton; [done|].
    intros i [Hi _]%elem_of_filter ->%elem_of_singleton. lia.
  - by rewrite union_empty_r_L, Nat.add_0_r.
Qed.

Lemma length_extracted sel l :
  length (extracted sel l) = size (filter (λ i, (i < length l)%nat) sel).
Proof.
  induction l as [|x l IH] using rev_ind.
  { assert (filter (λ i, (i < length (@nil A))%nat) sel = ∅) as ->.
    { apply set_eq. intros i. rewrite elem_of_filter, elem_of_empty. simpl. lia. }
    by rewrite size_empty. }
  unfold extracted in *. rewrite restrict_from_app, !length_app, IH. simpl.
  replace (length l + 1)%nat with (S (length l)) by lia.
  rewrite size_filter_below_succ. by case_bool_decide.
Qed.

Lemma length_remaining sel l :
  (length (remaining sel l) + size (filter (λ i, (i < length l)%nat) sel))%nat
  = length l.
Proof.
  rewrite <- length_extracted.
  pose proof (restrict_from_split (λ i, bool_decide (i ∈ sel)) 0 l) as Hp.
  apply Permutation_length in Hp. rewrite length_app in Hp.
  unfold remaining, extracted.
  rewrite (restrict_from_ext (λ i, bool_decide (i ∉ sel))
             (λ j, negb (bool_decide (j ∈ sel))) 0 l); [lia|].
  intros j _. by rewrite bool_decide_not.
Qed.

Lemma size_filter_below_Z sel (n : nat) :
  size (filter (λ i, Z.of_nat i < Z.of_nat n) sel)
  = size (filter (λ i, (i < n)%nat) sel).
Proof.
  f_equal. apply set_eq. intros i. rewrite !elem_of_filter. intuition lia.
Qed.

(** The unselected items before row [n] are as many as the adjusted
    target of [n] says. *)
Lemma length_remaining_take sel l (n : nat) :
  (n ≤ length l)%nat →
  Z.of_nat (length (remaining sel (take n l))) = adjustedTarget sel (Z.of_nat n).
Proof.
  intros Hn. unfold adjustedTarget. rewrite size_filter_below_Z.
  pose proof (length_remaining sel (take n l)) as Hlen.
  rewrite length_take_le in Hlen by done. lia.
Qed.

Lemma remaining_split sel l (n : nat) :
  remaining sel l
  = remaining sel (take n l)
    ++ restrict_from (λ j, bool_decide (j ∉ sel)) (length (take n l)) (drop n l).
Proof.
  unfold remaining. rewrite <- (take_drop n l) at 1.
  by rewrite restrict_from_app.
Qed.

Lemma relocate_two_phase_gap sel l (n : nat) :
  (n ≤ length l)%nat →
  relocate_two_phase sel (Z.of_nat n) l
  = remaining sel (take n l) ++ extracted sel l
    ++ restrict_from (λ j, bool_decide (j ∉ sel)) n (drop n l).
Proof.
  intros Hn. unfold relocate_two_phase, reinsert_at.
  rewrite <- (length_remaining_take sel l n Hn), Nat2Z.id.
  rewrite (remaining_split sel l n) at 1 2.
  rewrite take_app_length, drop_app_length.
  by rewrite length_take_le.
Qed.

Lemma elem_of_restrict_from (p : nat → bool) l x : ∀ i0,
  x ∈ restrict_from p i0 l ↔ ∃ k, p (i0 + k)%nat = true ∧ l !! k = Some x.
Proof.
  induction l as [|y l IH]; intros i0; simpl.
  { split; [by intros ?%elem_of_nil|by intros (k & _ & ?)]. }
  assert (Htail : x ∈ restrict_from p (S i0) l ↔
            ∃ k, p (i0 + S k)%nat = true ∧ l !! k = Some x).
  { rewrite IH. by setoid_rewrite Nat.add_succ_r. }
  destruct (p i0) eqn:Hp.
  - rewrite elem_of_cons, Htail. split.
    + intros [->|(k & Hk & Hl)].
      * exists 0%nat. by rewrite Nat.add_0_r.
      * by exists (S k).
    + intros ([|k] & Hk & Hl); simpl in Hl.
      * left. congruence.
      * right. by exists k.
  - rewrite Htail. split.
    + intros (k & Hk & Hl). by exists (S k).
    + intros ([|k] & Hk & Hl); simpl in Hl.
      * rewrite Nat.add_0_r in Hk. congruence.
      * by exists k.
Qed.

Lemma elem_of_remaining sel l x :
  x ∈ remaining sel l ↔ ∃ i, (i ∉ sel) ∧ l !! i = Some x.
Proof.
  unfold remaining. rewrite elem_of_restrict_from. simpl.
  by setoid_rewrite bool_decide_eq_true.
Qed.

Lemma remaining_subset sel l x : x ∈ remaining sel l → x ∈ l.
Proof.
  intros (i & _ & Hi)%elem_of_remaining. by eapply list_elem_of_lookup_2.
Qed.

Lemma size_filter_below_mono sel (n m : nat) :
  (n ≤ m)%nat →
  (size (filter (λ i, (i < m)%nat) sel)
   ≤ size (filter (λ i, (i < n)%nat) sel) + (m - n))%nat.
Proof.
  intros Hnm. induction Hnm as [|m Hnm IH].
  - lia.
  - rewrite size_filter_below_succ. case_bool_decide; lia.
Qed.

(** Putting items back never loses or doubles one, wherever they go. *)
Lemma insert_items_perm (block : list A) : ∀ (insert_at i : Z) l,
  insert_items insert_at i (Some <$> block) l ≡ₚ block ++ l.
Proof.
  induction block as [|x block IH]; intros insert_at i l; [done|].
  simpl. rewrite IH. rewrite <- Permutation_middle, take_drop.
  symmetry. apply Permutation_middle.
Qed.

(** A drop moves the items and nothing else, whatever index is stored. *)
Lemma dropEvent_any_perm sel (t : Z) l l' :
  dropEvent (Some t) sel l = Relocated l' → l' ≡ₚ l.
Proof.
  destruct (decide (sel = ∅)) as [->|Hsel].
  { unfold dropEvent. by rewrite (proj2 (sorted_rows_nil ∅) eq_refl). }
  rewrite dropEvent_unfold by done. intros [= <-].
  destruct (take_rows_restrict l 0 (sorted_rows sel)) as [m Hm];
    [apply sorted_rows_increasing|apply Forall_forall; intros; lia|].
  change (Z.of_nat 0) with 0 in Hm. rewrite Hm. cbn [fst snd].
  rewrite insert_items_app, insert_items_None.
  etransitivity; [apply insert_items_perm|].
  etransitivity; [|apply (restrict_from_split (on_rows (sorted_rows sel)) 0 l)].
  apply Permutation_app_head. apply reflexive_eq.
  apply restrict_from_ext. intros j _. unfold off_rows, on_rows.
  by rewrite bool_decide_not.
Qed.

End ArrangementMore.

Section ArrangementExtras.
Import PageList.

(** X1. A drop at index [t] of the list puts the selected block into the
    gap in front of row [t]: the unselected items that were before row [t]
    come first, then the selected items, then the unselected items that
    were at row [t] or after it. *)
Theorem relocate_lands_in_gap :
  ∀ (A : Type) (l : list A) (sel : gset nat) (n : nat),
    sel ≠ ∅ → (n ≤ length l)%nat →
    dropEvent (Some (Z.of_nat n)) sel l
    = Relocated (remaining sel (take n l) ++ extracted sel l
                 ++ restrict_from (λ j, bool_decide (j ∉ sel)) n (drop n l)).
Proof.
  intros A l sel n Hsel Hn.
  rewrite dropEvent_two_phase by (done || lia).
  f_equal. by apply relocate_two_phase_gap.
Qed.

(** Rows 1 and 3 of five items dropped in front of row 2. *)
Lemma relocate_lands_in_gap_witness :
  ({[1%nat; 3%nat]} : gset nat) ≠ ∅ ∧
  (2 ≤ length ["A"; "B"; "C"; "D"; "E"]%string)%nat ∧
  dropEvent (Some (Z.of_nat 2)) {[1%nat; 3%nat]} ["A"; "B"; "C"; "D"; "E"]%string
  = Relocated ["A"; "B"; "D"; "C"; "E"]%string.
Proof.
  assert (Hsel : ({[1%nat; 3%nat]} : gset nat) ≠ ∅).
  { intros He. assert (Hin : 1%nat ∈ ({[1%nat; 3%nat]} : gset nat)) by set_solver.
    rewrite He in Hin. by apply not_elem_of_empty in Hin. }
  assert (Hn : (2 ≤ length ["A"; "B"; "C"; "D"; "E"]%string)%nat) by (simpl; lia).
  split_and!; [exact Hsel|exact Hn|].
  rewrite (relocate_lands_in_gap string ["A"; "B"; "C"; "D"; "E"]%string
             {[1%nat; 3%nat]} 2 Hsel Hn).
  vm_compute. reflexivity.
Defined.

(** X2. A drop at index 0 puts the selected block first; a drop index at
    or past the end of the list (Qt clamps the row of [insertItem]) puts it
    last. *)
Theorem relocate_at_the_ends :
  ∀ (A : Type) (l : list A) (sel : gset nat),
    sel ≠ ∅ →
    dropEvent (Some 0) sel l = Relocated (extracted sel l ++ remaining sel l) ∧
    ∀ t : Z, Z.of_nat (length l) ≤ t →
      dropEvent (Some t) sel l = Relocated (remaining sel l ++ extracted sel l).
Proof.
  intros A l sel Hsel. split.
  - rewrite dropEvent_two_phase by done. f_equal.
    unfold relocate_two_phase, reinsert_at.
    assert (adjustedTarget sel 0 = 0) as ->.
    { pose proof (adjustedTarget_nonneg sel 0). unfold adjustedTarget in *. lia. }
    simpl. by rewrite drop_0.
  - intros t Ht. rewrite dropEvent_two_phase by (done || lia). f_equal.
    unfold relocate_two_phase, reinsert_at.
    assert (Hge : (length (remaining sel l) ≤ Z.to_nat (adjustedTarget sel t))%nat).
    { replace t with (Z.of_nat (Z.to_nat t)) by lia.
      unfold adjustedTarget. rewrite size_filter_below_Z.
      pose proof (length_remaining sel l).
      pose proof (size_filter_below_mono sel (length l) (Z.to_nat t)). lia. }
    by rewrite take_ge, drop_ge, app_nil_r by done.
Qed.

(** Rows 1 and 3 of five items dropped at index 9. *)
Lemma relocate_at_the_ends_witness :
  ({[1%nat; 3%nat]} : gset nat) ≠ ∅ ∧
  Z.of_nat (length ["A"; "B"; "C"; "D"; "E"]%string) ≤ 9 ∧
  dropEvent (Some 9) {[1%nat; 3%nat]} ["A"; "B"; "C"; "D"; "E"]%string
  = Relocated ["A"; "C"; "E"; "B"; "D"]%string.
Proof.
  assert (Hsel : ({[1%nat; 3%nat]} : gset nat) ≠ ∅).
  { intros He. assert (Hin : 1%nat ∈ ({[1%nat; 3%nat]} : gset nat)) by set_solver.
    rewrite He in Hin. by apply not_elem_of_empty in Hin. }
  assert (Ht : Z.of_nat (length ["A"; "B"; "C"; "D"; "E"]%string) ≤ 9) by (simpl; lia).
  split_and!; [exact Hsel|exact Ht|].
  rewrite (proj2 (relocate_at_the_ends string ["A"; "B"; "C"; "D"; "E"]%string
                    {[1%nat; 3%nat]} Hsel) 9 Ht).
  vm_compute. reflexivity.
Defined.

(** X3. Removing a selection shortens the list by the number of selected
    rows that exist; every item left was at an unselected row, and the item
    of an unselected row [i] is found at [i] less the number of selected
    rows before it. *)
Theorem remove_selected_survivors :
  ∀ (A : Type) (l : list A) (sel : gset nat),
    (length (remove_selected sel l)
     + size (filter (λ i, (i < length l)%nat) sel))%nat = length l ∧
    (∀ x, x ∈ remove_selected sel l ↔ ∃ i, (i ∉ sel) ∧ l !! i = Some x) ∧
    (∀ i, i ∉ sel →
       remove_selected sel l !! (i - size (filter (λ j, (j < i)%nat) sel))%nat
       = l !! i).
Proof.
  intros A l sel. rewrite remove_selected_remaining. split_and!.
  - apply length_remaining.
  - intros x. apply elem_of_remaining.
  - intros i Hi. destruct (l !! i) as [x|] eqn:Hl.
    + pose proof (lookup_lt_Some _ _ _ Hl) as Hlt.
      rewrite (remaining_split sel l i).
      rewrite (drop_S l x i Hl). simpl.
      rewrite length_take_le by lia.
      rewrite bool_decide_eq_true_2 by done.
      pose proof (length_remaining sel (take i l)) as Hlen.
      rewrite length_take_le in Hlen by lia.
      replace (i - size (filter (λ j, (j < i)%nat) sel))%nat
        with (length (remaining sel (take i l))) by lia.
      apply list_lookup_middle. done.
    + apply lookup_ge_None in Hl. apply lookup_ge_None.
      pose proof (length_remaining sel l).
      pose proof (size_filter_below_mono sel (length l) i). lia.
Qed.

(** Row 2 of five items, with rows 1 and 3 removed, moves up to row 1. *)
Lemma remove_selected_survivors_witness :
  (2%nat ∉ ({[1%nat; 3%nat]} : gset nat)) ∧
  remove_selected {[1%nat; 3%nat]} ["A"; "B"; "C"; "D"; "E"]%string
    !! (2 - size (filter (λ j, (j < 2)%nat) ({[1%nat; 3%nat]} : gset nat)))%nat
  = ["A"; "B"; "C"; "D"; "E"]%string !! 2%nat.
Proof.
  assert (Hi : 2%nat ∉ ({[1%nat; 3%nat]} : gset nat)).
  { rewrite not_elem_of_union, !not_elem_of_singleton. lia. }
  split; [exact Hi|].
  apply (proj2 (proj2 (remove_selected_survivors string
                         ["A"; "B"; "C"; "D"; "E"]%string {[1%nat; 3%nat]})) 2%nat Hi).
Defined.

(** X4. Once a selection has been dropped at an index of the list,
    removing the rows where its block has landed leaves what removing the
    selection from the original list leaves. *)
Theorem relocate_then_discard :
  ∀ (A : Type) (l : list A) (sel : gset nat) (t : Z),
    sel ≠ ∅ → 0 ≤ t ≤ Z.of_nat (length l) →
    ∃ l', dropEvent (Some t) sel l = Relocated l' ∧
          remove_selected
            (set_seq (Z.to_nat (adjustedTarget sel t)) (length (extracted sel l))) l'
          = remove_selected sel l.
Proof.
  intros A l sel t Hsel Ht.
  exists (relocate_two_phase sel t l).
  split; [apply dropEvent_two_phase; [done|lia]|].
  rewrite !remove_selected_remaining, remaining_run.
  unfold relocate_two_phase, reinsert_at.
  set (a := Z.to_nat (adjustedTarget sel t)).
  set (rest := remaining sel l). set (block := extracted sel l).
  assert (Ha : (a ≤ length rest)%nat).
  { subst a rest. replace t with (Z.of_nat (Z.to_nat t)) by lia.
    rewrite <- (length_remaining_take sel l (Z.to_nat t)) by lia.
    rewrite Nat2Z.id, (remaining_split sel l (Z.to_nat t)), length_app. lia. }
  rewrite take_app_length' by (by rewrite length_take_le).
  rewrite app_assoc, drop_app_length' by (rewrite length_app, length_take_le; lia).
  apply take_drop.
Qed.

(** Rows 1 and 3 of five items dropped at 4, and then rows 2 and 3 removed. *)
Lemma relocate_then_discard_witness :
  ({[1%nat; 3%nat]} : gset nat) ≠ ∅ ∧
  0 ≤ 4 ≤ Z.of_nat (length ["A"; "B"; "C"; "D"; "E"]%string) ∧
  ∃ l', dropEvent (Some 4) {[1%nat; 3%nat]} ["A"; "B"; "C"; "D"; "E"]%string
        = Relocated l' ∧
        remove_selected (set_seq 2 2) l' = ["A"; "C"; "E"]%string.
Proof.
  assert (Hsel : ({[1%nat; 3%nat]} : gset nat) ≠ ∅).
  { intros He. assert (Hin : 1%nat ∈ ({[1%nat; 3%nat]} : gset nat)) by set_solver.
    rewrite He in Hin. by apply not_elem_of_empty in Hin. }
  assert (Ht : 0 ≤ 4 ≤ Z.of_nat (length ["A"; "B"; "C"; "D"; "E"]%string))
    by (simpl; lia).
  split_and!; [exact Hsel|lia|simpl; lia|].
  destruct (relocate_then_discard string ["A"; "B"; "C"; "D"; "E"]%string
              {[1%nat; 3%nat]} 4 Hsel Ht) as (l' & Hdrop & Hrm).
  exists l'. split; [exact Hdrop|].
  etransitivity; [|etransitivity; [exact Hrm|]]; [|vm_compute; reflexivity].
  f_equal.
Defined.

(** A drop is left to Qt's own handler exactly when no drop index is
    stored or nothing is selected; in every other case the widget moves
    the rows itself. *)
Theorem dropEvent_passed_to_base :
  ∀ (A : Type) (l : list A) (drop_index : option Z) (sel : gset nat),
    dropEvent drop_index sel l = PassedToBase ↔ drop_index = None ∨ sel = ∅.
Proof.
  intros A l drop_index sel. split.
  - destruct drop_index as [t|]; [|by left].
    destruct (decide (sel = ∅)) as [->|Hne]; [by right|].
    by rewrite dropEvent_unfold.
  - intros [->| ->]; [done|]. by destruct drop_index.
Qed.

End ArrangementExtras.

(** * More about the drop planner *)

Section PlannerMore.
Import Planner.

Lemma compute_drop_position_item spacing rects pos :
  rects ≠ [] →
  rects !! fst (fst (_compute_drop_position spacing rects pos))
  = Some (snd (fst (_compute_drop_position spacing rects pos))).
Proof.
  intros Hne.
  destruct (collect_row spacing pos 0 rects) as [|e0 row0] eqn:Hrow.
  - destruct rects as [|first_rect rects]; [done|].
    unfold _compute_drop_position. rewrite Hrow.
    destruct (py pos <? top first_rect); cbn [fst snd]; [done|].
    replace (length (first_rect :: rects) - 1)%nat with (length rects)
      by (simpl; lia).
    apply lookup_last_cons.
  - assert (Hin : ∀ i r, (i, r) ∈ sort_by_left (collect_row spacing pos 0 rects) →
                         rects !! i = Some r).
    { intros i r Hi. rewrite sort_by_left_perm in Hi.
      by apply collect_row_active in Hi as [Hi _]. }
    assert (Hsorted : StronglySorted entry_lt
                        (sort_by_left (collect_row spacing pos 0 rects)))
      by apply sort_by_left_sorted, collect_row_by_index.
    rewrite compute_on_row by (by rewrite Hrow). cbv zeta.
    destruct (walk_row pos _) as [res|] eqn:Hw.
    + destruct (walk_row_Some _ _ _ Hsorted Hw) as (i & r & -> & Hi & _).
      cbn [fst snd]. by apply Hin.
    + cbn [fst snd].
      destruct (last_of_sorted _ (0%nat, QRect_xywh 0 0 0 0) Hsorted) as [Hlast _].
      { intros Hnil.
        pose proof (sort_by_left_perm (collect_row spacing pos 0 rects)) as Hp.
        rewrite Hnil, Hrow in Hp. by apply Permutation_nil_l in Hp. }
      destruct (List.last _ _) as [i r]. cbn [fst snd]. by apply Hin.
Qed.

End PlannerMore.

Section PlannerExtras.
Import Planner PageList.

(** X5. On a list that is not empty the planner always answers an item of
    the list together with that item's own rectangle, so the marker is
    drawn on the item that the drop index is counted from. *)
Theorem planner_answers_an_item :
  ∀ (spacing : Z) (rects : list QRect) (pos : QPoint),
    rects ≠ [] →
    ∃ idx rect before,
      _compute_drop_position spacing rects pos = (idx, rect, before) ∧
      rects !! idx = Some rect ∧
      dragMoveEvent spacing rects pos
      = Some (if before then Z.of_nat idx else Z.of_nat idx + 1).
Proof.
  intros spacing rects pos Hne.
  pose proof (compute_drop_position_item spacing rects pos Hne) as Hitem.
  unfold dragMoveEvent.
  destruct (_compute_drop_position spacing rects pos) as [[idx rect] before].
  exists idx, rect, before. by split_and!.
Qed.

(** Two items side by side and a pointer on the right half of the second. *)
Lemma planner_answers_an_item_witness :
  let rects := [mkRect 1 0 99 100; mkRect 101 0 199 100] in
  rects ≠ [] ∧
  ∃ idx rect before,
    _compute_drop_position 10 rects (mkPoint 160 50) = (idx, rect, before) ∧
    rects !! idx = Some rect.
Proof.
  intros rects.
  assert (Hne : rects ≠ []) by discriminate.
  split; [exact Hne|].
  destruct (planner_answers_an_item 10 rects (mkPoint 160 50) Hne)
    as (idx & rect & before & Hres & Hitem & _).
  by exists idx, rect, before.
Defined.

(** X6. Wherever the pointer is, a drop that [dragMoveEvent] has planned on
    the rectangles of the rows and that [dropEvent] applies to a selection
    that is not empty is carried out by the widget itself, at an index
    [n] of [0 .. count], and puts the selected block into the gap in front
    of row [n]; no item is lost or doubled. *)
Theorem planned_drop_relocates :
  ∀ (A : Type) (l : list A) (spacing : Z) (rects : list QRect) (pos : QPoint)
    (sel : gset nat),
    length rects = length l → sel ≠ ∅ →
    ∃ (n : nat) (l' : list A),
      dragMoveEvent spacing rects pos = Some (Z.of_nat n) ∧
      (n ≤ length l)%nat ∧
      dropEvent (dragMoveEvent spacing rects pos) sel l = Relocated l' ∧
      l' = remaining sel (take n l) ++ extracted sel l
           ++ restrict_from (λ j, bool_decide (j ∉ sel)) n (drop n l) ∧
      l' ≡ₚ l.
Proof.
  intros A l spacing rects pos sel Hlen Hsel.
  assert (Hplan : ∃ n : nat, dragMoveEvent spacing rects pos = Some (Z.of_nat n)
                             ∧ (n ≤ length rects)%nat).
  { unfold dragMoveEvent. destruct rects as [|r rects]; [by exists 0%nat|].
    pose proof (compute_drop_position_index spacing (r :: rects) pos) as Hidx.
    destruct (_compute_drop_position spacing (r :: rects) pos) as [[idx rect] before].
    cbn [fst] in Hidx. specialize (Hidx ltac:(done)).
    destruct before.
    - exists idx. split; [done|lia].
    - exists (S idx). split; [f_equal; lia|lia]. }
  destruct Hplan as (n & Hplan & Hn). rewrite Hlen in Hn.
  exists n, (relocate_two_phase sel (Z.of_nat n) l).
  rewrite Hplan. split_and!; [done|done|..].
  - apply dropEvent_two_phase; [done|lia].
  - by apply relocate_two_phase_gap.
  - apply relocate_two_phase_perm.
Qed.

(** Two items, the first selected, and a pointer right of the second. *)
Lemma planned_drop_relocates_witness :
  let rects := [mkRect 1 0 99 100; mkRect 101 0 199 100] in
  length rects = length ["A"; "B"]%string ∧
  ({[0%nat]} : gset nat) ≠ ∅ ∧
  ∃ l', dropEvent (dragMoveEvent 10 rects (mkPoint 160 50)) {[0%nat]} ["A"; "B"]%string
        = Relocated l' ∧ l' ≡ₚ ["A"; "B"]%string.
Proof.
  intros rects.
  assert (Hsel : ({[0%nat]} : gset nat) ≠ ∅).
  { intros He. assert (Hin : 0%nat ∈ ({[0%nat]} : gset nat)) by set_solver.
    rewrite He in Hin. by apply not_elem_of_empty in Hin. }
  split_and!; [reflexivity|exact Hsel|].
  destruct (planned_drop_relocates string ["A"; "B"]%string 10 rects (mkPoint 160 50)
              {[0%nat]} eq_refl Hsel) as (n & l' & _ & _ & Hdrop & _ & Hperm).
  by exists l'.
Defined.

End PlannerExtras.

(** * More about the export *)

Section ExportMore.
Import ExportPipeline ExportRecord.
Local Open Scope string_scope.

(** **** The names of the parts are all different *)

Lemma digits_value_zeros k s : digits_value (zeros k ++ s) = digits_value s.
Proof.
  unfold digits_value. induction k as [|k IH]; [done|].
  change (zeros (S k) ++ s) with (String "0" (zeros k ++ s)).
  cbn [NilEmpty.uint_of_string].
  destruct (NilEmpty.uint_of_string (zeros k ++ s)) as [d|] eqn:Hd;
    destruct (NilEmpty.uint_of_string s) as [d'|]; done.
Qed.

Lemma digits_value_to_uint (n : N) :
  digits_value (NilZero.string_of_uint (N.to_uint n)) = Some n.
Proof.
  unfold digits_value, NilZero.string_of_uint.
  destruct (N.to_uint n) as [| | | | | | | | | |] eqn:Hn;
    try (rewrite <- Hn, NilEmpty.usu; simpl; by rewrite Unsigned.of_to).
  simpl. f_equal. rewrite <- (Unsigned.of_to n), Hn. done.
Qed.

Lemma digits_value_format_05d (idx : Z) :
  (0 ≤ idx)%Z → digits_value (format_05d idx) = Some (Z.to_N idx).
Proof.
  intros Hidx. unfold format_05d.
  rewrite (proj2 (Z.ltb_ge idx 0)) by lia.
  rewrite digits_value_zeros, digits_value_to_uint. f_equal. lia.
Qed.

Lemma format_05d_inj (i j : Z) :
  (0 ≤ i)%Z → (0 ≤ j)%Z → format_05d i = format_05d j → i = j.
Proof.
  intros Hi Hj Heq.
  pose proof (digits_value_format_05d i Hi) as Hdi.
  rewrite Heq, digits_value_format_05d in Hdi by done.
  injection Hdi as Hdi. lia.
Qed.

Lemma length_append (a b : string) :
  String.length (a ++ b) = (String.length a + String.length b)%nat.
Proof.
  induction a as [|ch a IH]; [done|]. rewrite append_cons. simpl. by rewrite IH.
Qed.

Lemma append_inj_l (a b c : string) : a ++ b = a ++ c → b = c.
Proof.
  induction a as [|ch a IH]; [done|].
  rewrite !append_cons. intros [= H]. by apply IH.
Qed.

Lemma append_inj_r (c a b : string) : a ++ c = b ++ c → a = b.
Proof.
  revert b. induction a as [|ch a IH]; intros [|ch' b] Heq; [done|..].
  - change (c = String ch' (b ++ c)) in Heq.
    apply (f_equal String.length) in Heq.
    simpl in Heq. rewrite length_append in Heq. lia.
  - change (String ch (a ++ c) = c) in Heq.
    apply (f_equal String.length) in Heq.
    simpl in Heq. rewrite length_append in Heq. lia.
  - rewrite !append_cons in Heq. injection Heq as -> Heq. f_equal. by apply IH.
Qed.

Lemma part_name_inj (i j : Z) :
  (0 ≤ i)%Z → (0 ≤ j)%Z → part_name i = part_name j → i = j.
Proof.
  intros Hi Hj Heq. unfold part_name in Heq.
  apply append_inj_l, append_inj_r in Heq. by apply format_05d_inj.
Qed.

Lemma part_path_inj tmpdir (k k' : nat) :
  part_path tmpdir k = part_path tmpdir k' → k = k'.
Proof.
  unfold part_path, path_join. intros Heq.
  apply append_inj_l, append_inj_l, part_name_inj in Heq; lia.
Qed.

End ExportMore.

Section ExportLoop.
Import ExportPipeline ExportRecord.
Variable env : Env.
Variable tmpdir : string.
Implicit Types (pages : list PageRef) (w : world) (parts : list string).

(** **** The loop of the extractions, whatever the tools do *)

Lemma extraction_cmds_from_snoc k0 pages pr :
  extraction_cmds_from tmpdir k0 (pages ++ [pr])
  = extraction_cmds_from tmpdir k0 pages
    ++ [extraction_cmd tmpdir (k0 + length pages) pr].
Proof.
  unfold extraction_cmds_from. rewrite imap_app. simpl.
  by rewrite Nat.add_0_r.
Qed.

Lemma extraction_cmds_from_cons k0 pr pages :
  extraction_cmds_from tmpdir k0 (pr :: pages)
  = extraction_cmd tmpdir k0 pr :: extraction_cmds_from tmpdir (S k0) pages.
Proof.
  unfold extraction_cmds_from. simpl. rewrite Nat.add_0_r. f_equal.
  apply imap_ext. intros k pr' _. simpl. f_equal. lia.
Qed.

Lemma separate_all_any pages : ∀ (k0 : nat) parts w,
  ∃ n : nat, (n ≤ length pages)%nat ∧
    log (snd (separate_all env tmpdir (Z.of_nat k0 + 1) pages parts w))
    = log w ++ (Run <$> extraction_cmds_from tmpdir k0 (take n pages)) ∧
    (∀ p, (∀ k, (k0 ≤ k)%nat → p ≠ part_path tmpdir k) →
          files (snd (separate_all env tmpdir (Z.of_nat k0 + 1) pages parts w)) !! p
          = files w !! p) ∧
    (∀ ps, fst (separate_all env tmpdir (Z.of_nat k0 + 1) pages parts w) = inr ps →
           n = length pages ∧
           ps = parts ++ part_paths_from tmpdir k0 (length pages) ∧
           (∀ k pr, pages !! k = Some pr →
                    succeeded (extraction env tmpdir (k0 + k) pr) = true) ∧
           (∀ k, (k < length pages)%nat →
              files (snd (separate_all env tmpdir (Z.of_nat k0 + 1) pages parts w))
                !! part_path tmpdir (k0 + k) ≠ None)).
Proof.
  induction pages as [|pr pages IH]; intros k0 parts w.
  { exists 0%nat. simpl. split_and!; [lia|by rewrite app_nil_r|done|].
    intros ps [= <-]. split_and!; [done|by rewrite app_nil_r|done|].
    intros k Hk. lia. }
  rewrite separate_all_step. cbv zeta.
  set (w1 := snd (run env (extraction_cmd tmpdir k0 pr) w)).
  assert (Hw1 : ∀ p, p ≠ part_path tmpdir k0 → files w1 !! p = files w !! p).
  { intros p Hp. apply run_files_other. unfold extraction_cmd.
    by rewrite last_separate_cmd. }
  destruct (succeeded (extraction env tmpdir k0 pr)) eqn:Hok.
  - destruct (IH (S k0) (parts ++ [part_path tmpdir k0]) w1)
      as (n & Hn & Hlog & Hframe & Hinr).
    exists (S n). split_and!.
    + simpl. lia.
    + rewrite Hlog. subst w1. rewrite run_log, <- app_assoc. f_equal.
      simpl take. by rewrite extraction_cmds_from_cons.
    + intros p Hp. rewrite Hframe by (intros k Hk; apply Hp; lia).
      apply Hw1. apply Hp. lia.
    + intros ps Hps. destruct (Hinr ps Hps) as (-> & -> & Hall & Hfiles).
      split_and!.
      * done.
      * rewrite <- app_assoc. done.
      * intros [|k] pr' Hk; simpl in Hk.
        -- injection Hk as <-. by rewrite Nat.add_0_r.
        -- replace (k0 + S k)%nat with (S k0 + k)%nat by lia. by apply Hall.
      * intros [|k] Hk.
        -- rewrite Nat.add_0_r.
           rewrite Hframe.
           ++ pose proof (run_files_dest env
                            (separate_cmd pr (part_path tmpdir k0)) w) as Hd.
              rewrite last_separate_cmd in Hd.
              change (files w1 !! part_path tmpdir k0 ≠ None).
              subst w1. unfold extraction_cmd. rewrite Hd.
              apply succeeded_returned in Hok as (r & Hr & _ & [c Hc]).
              unfold extraction, extraction_cmd in Hr. rewrite Hr.
              cbn [left_behind]. by rewrite Hc.
           ++ intros k Hk' Heq. apply part_path_inj in Heq. lia.
        -- replace (k0 + S k)%nat with (S k0 + k)%nat by lia.
           apply Hfiles. simpl in Hk. lia.
  - exists 1%nat. cbn [fst snd]. split_and!.
    + simpl. lia.
    + subst w1. rewrite run_log. simpl take. rewrite take_0.
      by rewrite extraction_cmds_from_cons.
    + intros p Hp. apply Hw1, Hp. lia.
    + intros ps [=].
Qed.

End ExportLoop.

Section CreatePdfMore.
Import ExportPipeline ExportRecord.
Variable env : Env.
Implicit Types (pages : list PageRef) (w : world).

Lemma tool_runs_app evs1 evs2 : tool_runs (evs1 ++ evs2) = tool_runs evs1 ++ tool_runs evs2.
Proof. unfold tool_runs. apply omap_app. Qed.

Lemma tool_runs_Run cmds : tool_runs (Run <$> cmds) = cmds.
Proof.
  unfold tool_runs. induction cmds as [|c cmds IH]; [done|].
  simpl. f_equal. exact IH.
Qed.

(** What the body of the [with] block does, whatever the tools do. *)
Lemma with_tmpdir_any out_path pages w :
  let tmpdir := mkdtemp env in
  let res := with_tmpdir env tmpdir out_path pages w in
  let merge := unite_cmd (part_paths tmpdir (length pages)) out_path in
  ∃ (n : nat) (merged : bool),
    (n ≤ length pages)%nat ∧
    (merged = false ∨ n = length pages) ∧
    log (snd res)
    = log w ++ (Run <$> extraction_cmds tmpdir (take n pages))
        ++ (if merged then [Run merge] else []) ∧
    (∀ p, in_dir tmpdir p = false → p ≠ out_path →
          files (snd res) !! p = files w !! p) ∧
    (∀ u, fst res = inr u →
          merged = true ∧
          (∀ k pr, pages !! k = Some pr →
                   succeeded (extraction env tmpdir k pr) = true) ∧
          ∃ r, subprocess_run env merge = Returned r ∧ returncode r = 0).
Proof.
  intros tmpdir res merge. subst res. unfold with_tmpdir.
  destruct (separate_all_any env tmpdir pages 0 [] w) as (n & Hn & Hlog & Hframe & Hinr).
  change (Z.of_nat 0 + 1) with 1 in Hlog, Hframe, Hinr.
  assert (Hout : ∀ p, in_dir tmpdir p = false →
            ∀ k, (0 ≤ k)%nat → p ≠ part_path tmpdir k).
  { intros p Hp k _ ->. unfold part_path in Hp.
    by rewrite in_dir_path_join in Hp. }
  destruct (separate_all env tmpdir 1 pages [] w) as [[msg|ps] w1] eqn:Hsep;
    cbn [fst snd] in *.
  - exists n, false. split_and!; [done|by left| |..].
    + by rewrite Hlog, app_nil_r.
    + intros p Hp _. apply Hframe. by apply Hout.
    + intros u [=].
  - destruct (Hinr ps eq_refl) as (-> & -> & Hall & _).
    change ([] ++ part_paths_from tmpdir 0 (length pages))
      with (part_paths tmpdir (length pages)).
    fold merge.
    change (run env merge w1) with (subprocess_run env merge, snd (run env merge w1)).
    cbv iota beta.
    exists (length pages), true.
    assert (Hlog' : log (snd (run env merge w1))
              = log w ++ (Run <$> extraction_cmds tmpdir (take (length pages) pages))
                  ++ [Run merge]).
    { rewrite run_log, Hlog. by rewrite <- app_assoc. }
    assert (Hframe' : ∀ p, in_dir tmpdir p = false → p ≠ out_path →
              files (snd (run env merge w1)) !! p = files w !! p).
    { intros p Hp Hne. rewrite run_files_other.
      - apply Hframe. by apply Hout.
      - subst merge. by rewrite last_unite_cmd. }
    destruct (subprocess_run env merge) as [r|ex remains] eqn:Hran.
    2:{ cbn [fst snd]. split_and!; [done|by right|done|done|]. intros u [=]. }
    destruct (returncode r =? 0) eqn:Hrc; cbn [fst snd negb].
    + split_and!; [done|by right|done|done|].
      intros u _. split_and!; [done|done|]. exists r. split; [done|].
      by apply Z.eqb_eq.
    + split_and!; [done|by right|done|done|].
      intros u [=].
Qed.

End CreatePdfMore.

Section ExportExtras.
Import ExportPipeline ExportRecord Examples MoreExamples.

(** X8. The temporary files of one export all have different names, for
    any number of pages: the name of a part gives back its counter, so no
    extraction writes over the part of another page. *)
Theorem part_paths_distinct :
  ∀ (tmpdir : string) (n : nat),
    NoDup (part_paths tmpdir n) ∧
    ∀ idx : Z, 0 ≤ idx → digits_value (format_05d idx) = Some (Z.to_N idx).
Proof.
  intros tmpdir n. split.
  - unfold part_paths, part_paths_from.
    apply NoDup_fmap_2; [|apply NoDup_seq].
    intros k k'. apply part_path_inj.
  - intros idx Hidx. by apply digits_value_format_05d.
Qed.

(** The counter 100000 is read back from its six digits. *)
Lemma part_paths_distinct_witness :
  0 ≤ 100000 ∧ digits_value (format_05d 100000) = Some (Z.to_N 100000).
Proof.
  assert (H : 0 ≤ 100000) by lia.
  split; [exact H|].
  exact (proj2 (part_paths_distinct ""%string 0) 100000 H).
Defined.

(** X9. When the loop of the extractions ends without an error, its list
    of parts names one file per page, in sequence order, every extraction
    has succeeded, and every one of these files is on the disk: the merge
    is only ever given files that are there. *)
Theorem extraction_loop_parts_exist :
  ∀ (env : Env) (tmpdir : string) (pages : list PageRef) (w : world)
    (part_files : list string),
    fst (separate_all env tmpdir 1 pages [] w) = inr part_files →
    part_files = part_paths tmpdir (length pages) ∧
    (∀ k pr, pages !! k = Some pr →
             succeeded (extraction env tmpdir k pr) = true) ∧
    Forall (λ p, is_Some (files (snd (separate_all env tmpdir 1 pages [] w)) !! p))
      part_files.
Proof.
  intros env tmpdir pages w part_files Hres.
  destruct (separate_all_any env tmpdir pages 0 [] w) as (n & _ & _ & _ & Hinr).
  change (Z.of_nat 0 + 1) with 1 in Hinr.
  destruct (Hinr part_files Hres) as (_ & -> & Hall & Hfiles).
  split_and!; [done|done|].
  apply Forall_forall. intros p Hp.
  apply list_elem_of_fmap in Hp as (k & -> & Hk). apply elem_of_seq in Hk.
  specialize (Hfiles k ltac:(lia)). simpl in Hfiles.
  by destruct (files _ !! part_path tmpdir k).
Qed.

(** Two pages extracted by tools that end well. *)
Lemma extraction_loop_parts_exist_witness :
  fst (separate_all env_ok (mkdtemp env_ok) 1 [page_a; page_a] [] nothing)
  = inr (part_paths (mkdtemp env_ok) 2) ∧
  Forall (λ p, is_Some (files (snd (separate_all env_ok (mkdtemp env_ok) 1
                                      [page_a; page_a] [] nothing)) !! p))
    (part_paths (mkdtemp env_ok) 2).
Proof.
  assert (Hres : fst (separate_all env_ok (mkdtemp env_ok) 1 [page_a; page_a] [] nothing)
                 = inr (part_paths (mkdtemp env_ok) 2)) by (vm_compute; reflexivity).
  split; [exact Hres|].
  exact (proj2 (proj2 (extraction_loop_parts_exist env_ok (mkdtemp env_ok)
                         [page_a; page_a] nothing _ Hres))).
Defined.

(** X10. When one of the two tools is not installed, an export of pages
    only shows the [Missing tools] box: no save dialog, no temporary
    directory, no run of a tool, and the files as they were; the second
    tool is not even looked for when the first is missing. *)
Theorem create_pdf_missing_tools :
  ∀ (env : Env) (pages : list PageRef) (w : world),
    pages ≠ [] →
    (command_exists env "pdfseparate" = false →
       log (create_pdf env pages w)
       = log w ++ [Which "pdfseparate"; ErrorBox "Missing tools" missing_tools_text] ∧
       files (create_pdf env pages w) = files w) ∧
    (command_exists env "pdfseparate" = true →
     command_exists env "pdfunite" = false →
       log (create_pdf env pages w)
       = log w ++ [Which "pdfseparate"; Which "pdfunite";
                   ErrorBox "Missing tools" missing_tools_text] ∧
       files (create_pdf env pages w) = files w).
Proof.
  intros env pages w Hne. destruct pages as [|pr pages]; [done|].
  split.
  - intros Hsep. unfold create_pdf. rewrite Hsep. cbn [negb].
    split; [|done]. unfold error_box, emit. cbn [log]. by rewrite <- app_assoc.
  - intros Hsep Hunite. unfold create_pdf. rewrite Hsep, Hunite. cbn [negb].
    split; [|done]. unfold error_box, emit. cbn [log]. by rewrite <- !app_assoc.
Qed.

(** One page to export and no [pdfunite]. *)
Lemma create_pdf_missing_tools_witness :
  [page_a] ≠ [] ∧
  command_exists env_no_unite "pdfseparate" = true ∧
  command_exists env_no_unite "pdfunite" = false ∧
  files (create_pdf env_no_unite [page_a] nothing) = files nothing.
Proof.
  assert (Hne : [page_a] ≠ []) by discriminate.
  split_and!; [exact Hne|reflexivity|reflexivity|].
  exact (proj2 (proj2 (create_pdf_missing_tools env_no_unite [page_a] nothing Hne)
                  eq_refl eq_refl)).
Defined.

(** X11. When the save dialog is dismissed, an export of pages stops
    there: the tools have been looked for and the dialog shown, and nothing
    else happens, not even a message; the files are as they were. *)
Theorem create_pdf_cancelled :
  ∀ (env : Env) (pages : list PageRef) (w : world),
    pages ≠ [] →
    command_exists env "pdfseparate" = true →
    command_exists env "pdfunite" = true →
    getSaveFileName env = ""%string →
    log (create_pdf env pages w)
    = log w ++ [Which "pdfseparate"; Which "pdfunite"; SaveDialog] ∧
    files (create_pdf env pages w) = files w.
Proof.
  intros env pages w Hne Hsep Hunite Hout. destruct pages as [|pr pages]; [done|].
  unfold create_pdf. rewrite Hsep, Hunite, Hout. cbn [negb String.eqb].
  split; [|done]. unfold emit. cbn [log]. by rewrite <- !app_assoc.
Qed.

(** One page to export and a dismissed dialog. *)
Lemma create_pdf_cancelled_witness :
  [page_a] ≠ [] ∧
  command_exists env_dismissed "pdfseparate" = true ∧
  command_exists env_dismissed "pdfunite" = true ∧
  getSaveFileName env_dismissed = ""%string ∧
  files (create_pdf env_dismissed [page_a] nothing) = files nothing.
Proof.
  assert (Hne : [page_a] ≠ []) by discriminate.
  split_and!; [exact Hne|reflexivity|reflexivity|reflexivity|].
  exact (proj2 (create_pdf_cancelled env_dismissed [page_a] nothing Hne
                  eq_refl eq_refl eq_refl)).
Defined.

(** X12. Whatever the tools do, an export leaves every file alone that
    lies neither in its temporary directory nor at the chosen output
    path. *)
Theorem create_pdf_touches_only_output :
  ∀ (env : Env) (pages : list PageRef) (w : world) (p : string),
    in_dir (mkdtemp env) p = false →
    p ≠ getSaveFileName env →
    files (create_pdf env pages w) !! p = files w !! p.
Proof.
  intros env pages w p Hdir Hp. unfold create_pdf.
  destruct pages as [|pr pages]; [done|].
  destruct (command_exists env "pdfseparate"); [|done].
  destruct (command_exists env "pdfunite"); [|done].
  cbn [negb]. destruct (String.eqb (getSaveFileName env) ""); [done|].
  destruct (with_tmpdir_any env (getSaveFileName env) (pr :: pages)
              (emit (MakeTempDir (mkdtemp env))
                 (emit SaveDialog (emit (Which "pdfunite")
                    (emit (Which "pdfseparate") w)))))
    as (n & merged & _ & _ & _ & Hframe & _).
  cbv zeta in Hframe.
  destruct (with_tmpdir _ _ _ _ _) as [res w1]. cbn [snd] in Hframe.
  destruct res; rewrite ?info_box_files, ?error_box_files, cleanup_outside by done;
    by rewrite Hframe.
Qed.

(** A document that is not the chosen output, and a merge that fails. *)
Lemma create_pdf_touches_only_output_witness :
  in_dir (mkdtemp env_merge_fails) "/home/kiwi/a.pdf" = false ∧
  "/home/kiwi/a.pdf"%string ≠ getSaveFileName env_merge_fails ∧
  files (create_pdf env_merge_fails [page_a; page_a] with_source) !! "/home/kiwi/a.pdf"%string
  = files with_source !! "/home/kiwi/a.pdf"%string.
Proof.
  assert (Hdir : in_dir (mkdtemp env_merge_fails) "/home/kiwi/a.pdf" = false)
    by reflexivity.
  assert (Hp : "/home/kiwi/a.pdf"%string ≠ getSaveFileName env_merge_fails)
    by discriminate.
  split_and!; [exact Hdir|exact Hp|].
  exact (create_pdf_touches_only_output env_merge_fails [page_a; page_a] with_source
           _ Hdir Hp).
Defined.

(** X13. Whatever the tools do, the commands that an export runs are the
    extractions of a first stretch of the pages, in sequence order, and
    after them at most one merge; a merge is run only after the extraction
    of every page, over the parts of all the pages. *)
Theorem create_pdf_runs_in_order :
  ∀ (env : Env) (pages : list PageRef) (w : world),
    ∃ (evs : list event) (n : nat) (merged : bool),
      log (create_pdf env pages w) = log w ++ evs ∧
      (n ≤ length pages)%nat ∧
      (merged = false ∨ n = length pages) ∧
      tool_runs evs
      = extraction_cmds (mkdtemp env) (take n pages)
        ++ (if merged
            then [unite_cmd (part_paths (mkdtemp env) (length pages))
                    (getSaveFileName env)]
            else []).
Proof.
  intros env pages w. unfold create_pdf.
  destruct pages as [|pr pages].
  { exists [InfoBox "Nothing to export" "Add pages first."], 0%nat, false.
    split_and!; [done|simpl; lia|by left|done]. }
  destruct (command_exists env "pdfseparate").
  2:{ eexists [_; _], 0%nat, false. cbn [negb].
      unfold error_box, emit. cbn [log]. rewrite <- app_assoc.
      split_and!; [done|simpl; lia|by left|done]. }
  destruct (command_exists env "pdfunite").
  2:{ eexists [_; _; _], 0%nat, false. cbn [negb].
      unfold error_box, emit. cbn [log]. rewrite <- !app_assoc.
      split_and!; [done|simpl; lia|by left|done]. }
  cbn [negb]. destruct (String.eqb (getSaveFileName env) "").
  { eexists [_; _; _], 0%nat, false. unfold emit. cbn [log]. rewrite <- !app_assoc.
    split_and!; [done|simpl; lia|by left|done]. }
  fold (started env w).
  destruct (with_tmpdir_any env (getSaveFileName env) (pr :: pages) (started env w))
    as (n & merged & Hn & Hm & Hlog & _).
  cbv zeta in Hlog.
  destruct (with_tmpdir _ _ _ _ _) as [res w1]. cbn [snd] in Hlog.
  set (merge := unite_cmd _ _) in *.
  set (final := match res with
                | inl msg => ErrorBox "Export error" msg
                | inr _ => InfoBox "Done" ("Created:" ++ nl ++ getSaveFileName env)%string
                end).
  exists (preamble (mkdtemp env)
          ++ (Run <$> extraction_cmds (mkdtemp env) (take n (pr :: pages)))
          ++ (if merged then [Run merge] else [])
          ++ [RemoveTree (mkdtemp env); final]), n, merged.
  split_and!; [|done|done|].
  - assert (Hcl : log (cleanup (mkdtemp env) w1) ++ [final]
              = log w ++ preamble (mkdtemp env)
                  ++ (Run <$> extraction_cmds (mkdtemp env) (take n (pr :: pages)))
                  ++ (if merged then [Run merge] else [])
                  ++ [RemoveTree (mkdtemp env); final]).
    { rewrite cleanup_log, Hlog, started_log. rewrite <- !app_assoc. done. }
    subst final. destruct res; rewrite ?info_box_log, ?error_box_log; exact Hcl.
  - rewrite !tool_runs_app, tool_runs_Run.
    subst final. destruct res, merged; cbn [tool_runs omap app preamble];
      by rewrite ?app_nil_r.
Qed.

(** X14. An export ends with the [Done] box exactly when there are pages,
    both tools are installed, an output path was picked, the call of every
    extraction returned, with return code 0 and the part in place, and the
    call of the merge returned, with return code 0.  A call that raises,
    whatever the tool has done by then, ends the export with an error
    box. *)
Theorem done_only_after_merge :
  ∀ (env : Env) (pages : list PageRef) (w : world),
    let tmpdir := mkdtemp env in
    let out_path := getSaveFileName env in
    let merge := unite_cmd (part_paths tmpdir (length pages)) out_path in
    last (log (create_pdf env pages w))
    = Some (InfoBox "Done" ("Created:" ++ nl ++ out_path)%string)
    ↔ pages ≠ [] ∧
      command_exists env "pdfseparate" = true ∧
      command_exists env "pdfunite" = true ∧
      out_path ≠ ""%string ∧
      (∀ k pr, pages !! k = Some pr →
               ∃ r, extraction env tmpdir k pr = Returned r ∧
                    returncode r = 0 ∧ is_Some (at_destination r)) ∧
      ∃ r, subprocess_run env merge = Returned r ∧ returncode r = 0.
Proof.
  intros env pages w tmpdir out_path merge. split.
  - unfold create_pdf.
    destruct pages as [|pr pages].
    { unfold info_box, emit. cbn [log]. rewrite last_snoc. intros H.
      discriminate H. }
    destruct (command_exists env "pdfseparate").
    2:{ cbn [negb]. unfold error_box, emit. cbn [log]. rewrite last_snoc. done. }
    destruct (command_exists env "pdfunite").
    2:{ cbn [negb]. unfold error_box, emit. cbn [log]. rewrite last_snoc. done. }
    cbn [negb]. destruct (String.eqb_spec (getSaveFileName env) "") as [Hout|Hout].
    { unfold emit. cbn [log]. rewrite last_snoc. done. }
    destruct (with_tmpdir_any env (getSaveFileName env) (pr :: pages)
                (emit (MakeTempDir (mkdtemp env))
                   (emit SaveDialog (emit (Which "pdfunite")
                      (emit (Which "pdfseparate") w)))))
      as (n & merged & _ & _ & _ & _ & Hinr).
    cbv zeta in Hinr.
    destruct (with_tmpdir _ _ _ _ _) as [[msg|u] w1]; cbn [fst] in Hinr.
    + rewrite error_box_log, last_snoc. done.
    + intros _. destruct (Hinr u eq_refl) as (_ & Hall & Hrc).
      split_and!; [done..| |done].
      intros k pr' Hk. by apply succeeded_returned, Hall.
  - intros (Hne & Hsep & Hunite & Hout & Hok & r & Hran & Hrc).
    assert (Hok' : ∀ k pr, pages !! k = Some pr →
                           succeeded (extraction env tmpdir k pr) = true).
    { intros k pr Hk. destruct (Hok k pr Hk) as (r' & -> & Hrc' & Hsome).
      cbn [succeeded]. rewrite Hrc'. by rewrite bool_decide_eq_true_2. }
    destruct (create_pdf_all_extracted env pages w Hne Hsep Hunite Hout Hok') as [-> _].
    fold tmpdir out_path merge. rewrite Hran. unfold closing_box, merge_result.
    rewrite Hrc. cbn [Z.eqb].
    rewrite !app_assoc.
    change [Run merge; RemoveTree tmpdir; InfoBox "Done" ("Created:" ++ nl ++ out_path)%string]
      with ([Run merge; RemoveTree tmpdir]
            ++ [InfoBox "Done" ("Created:" ++ nl ++ out_path)%string]).
    rewrite app_assoc. apply last_snoc.
Qed.

End ExportExtras.

(** * The main window *)

Section WindowFacts.
Import ExportPipeline MainWindow.
Variable docs : Documents.
Implicit Types (w : window) (rows : list QListWidgetItem).

Lemma rows_changed_edited rows w : rows_edited w (rows_changed rows w) rows.
Proof. by split_and!. Qed.

Lemma rows_edited_refl w : rows_edited w w (page_list w).
Proof. by split_and!. Qed.

Lemma rows_edited_trans w1 w2 w3 rows2 rows3 :
  rows_edited w1 w2 rows2 → rows_edited w2 w3 rows3 → rows_edited w1 w3 rows3.
Proof.
  intros (_ & Hi & Hb & Ht) (Hr & Hi' & Hb' & Ht').
  split_and!; [done|congruence|congruence|auto].
Qed.

(** **** Adding documents *)

Lemma append_pages_edited src n : ∀ (i : Z) w,
  rows_edited w (append_pages src i n w)
    (page_list w ++ ((λ k, item_of (mkPageRef src (i + Z.of_nat k))) <$> seq 0 n)).
Proof.
  induction n as [|n IH]; intros i w.
  { simpl. rewrite app_nil_r. apply rows_edited_refl. }
  simpl append_pages.
  eapply rows_edited_trans; [apply (rows_changed_edited _ w)|].
  replace (page_list w ++ ((λ k, item_of (mkPageRef src (i + Z.of_nat k))) <$> seq 0 (S n)))
    with (page_list (_append_page_item (mkPageRef src i) w)
          ++ ((λ k, item_of (mkPageRef src (i + 1 + Z.of_nat k))) <$> seq 0 n)).
  { apply IH. }
  simpl. rewrite <- app_assoc. f_equal. simpl. rewrite Z.add_0_r. f_equal.
  rewrite <- fmap_S_seq, <- list_fmap_compose. apply list_fmap_ext.
  intros _ k _. simpl. do 2 f_equal. lia.
Qed.

Lemma pages_of_nonempty p n :
  _count_pages docs p = inr n → 0 < n → pages_of docs p ≠ [].
Proof.
  intros Hc Hn. unfold pages_of. rewrite Hc.
  destruct (Z.to_nat n) as [|m] eqn:Hm; [lia|done].
Qed.

Lemma pages_of_not_positive p n :
  _count_pages docs p = inr n → n ≤ 0 → pages_of docs p = [].
Proof.
  intros Hc Hn. unfold pages_of. rewrite Hc.
  by replace (Z.to_nat n) with 0%nat by lia.
Qed.

Lemma add_loop_edited paths : ∀ (added_any : bool) w,
  page_list (snd (add_loop docs paths added_any w))
  = page_list w ++ (item_of <$> concat (pages_of docs <$> paths)) ∧
  current_index (snd (add_loop docs paths added_any w)) = current_index w ∧
  boxes (snd (add_loop docs paths added_any w)) = boxes w ++ load_errors docs paths ∧
  (trash_follows_rows w → trash_follows_rows (snd (add_loop docs paths added_any w))) ∧
  fst (add_loop docs paths added_any w)
  = added_any || bool_decide (concat (pages_of docs <$> paths) ≠ []).
Proof.
  induction paths as [|p paths IH]; intros added_any w.
  { simpl. rewrite !app_nil_r, orb_false_r. by split_and!. }
  simpl add_loop. unfold load_errors. cbn [omap list_omap fmap list_fmap concat].
  fold (load_errors docs paths).
  destruct (_count_pages docs p) as [ex|n] eqn:Hc.
  - destruct (IH added_any
                (show_error "Load error"
                   ("Cannot read PDF:" ++ nl ++ p ++ nl ++ nl ++ ex)%string w))
      as (Hr & Hi & Hb & Ht & Ha).
    assert (Hp : pages_of docs p = []) by (unfold pages_of; by rewrite Hc).
    rewrite Hp. simpl app.
    split_and!; [done|done| |done|done].
    rewrite Hb. simpl. by rewrite <- app_assoc.
  - destruct (Z.leb_spec n 0) as [Hn|Hn].
    + destruct (IH added_any w) as (Hr & Hi & Hb & Ht & Ha).
      rewrite (pages_of_not_positive p n Hc Hn). simpl app.
      by split_and!.
    + destruct (append_pages_edited (abspath docs p) (Z.to_nat n) 0 w)
        as (Hr0 & Hi0 & Hb0 & Ht0).
      destruct (IH true (append_pages (abspath docs p) 0 (Z.to_nat n) w))
        as (Hr & Hi & Hb & Ht & Ha).
      assert (Hp : pages_of docs p
                   = (λ i, mkPageRef (abspath docs p) (Z.of_nat i))
                       <$> seq 0 (Z.to_nat n))
        by (unfold pages_of; by rewrite Hc).
      split_and!.
      * rewrite Hr, Hr0, fmap_app, app_assoc. do 2 f_equal.
        rewrite Hp, <- list_fmap_compose. by apply list_fmap_ext.
      * congruence.
      * congruence.
      * auto.
      * rewrite Ha. cbn [orb]. symmetry.
        rewrite bool_decide_eq_true_2; [apply orb_true_r|].
        pose proof (pages_of_nonempty p n Hc Hn) as Hne.
        destruct (pages_of docs p); done.
Qed.

(** **** Taking and putting back, as the window sees them *)

Lemma takeItem_edited row w :
  fst (takeItem row w) = fst (PageList.takeItem row (page_list w)) ∧
  rows_edited w (snd (takeItem row w)) (snd (PageList.takeItem row (page_list w))).
Proof.
  unfold takeItem.
  destruct (PageList.takeItem row (page_list w)) as [[it|] rows] eqn:Ht; simpl.
  - split; [done|apply rows_changed_edited].
  - split; [done|].
    unfold PageList.takeItem in Ht. case_bool_decide.
    + injection Ht as Hl _. apply lookup_ge_None in Hl. lia.
    + injection Ht as <-. apply rows_edited_refl.
Qed.

Lemma insertItem_edited row it w :
  rows_edited w (insertItem row it w) (PageList.insertItem row it (page_list w)).
Proof.
  destruct it as [x|]; [apply rows_changed_edited|apply rows_edited_refl].
Qed.

Lemma remove_loop_edited (rs : list nat) : ∀ w,
  rows_edited w (foldl (λ acc r, snd (takeItem (Z.of_nat r) acc)) w rs)
    (foldl (λ acc r, snd (PageList.takeItem (Z.of_nat r) acc)) (page_list w) rs).
Proof.
  induction rs as [|r rs IH]; intros w; [apply rows_edited_refl|].
  simpl. destruct (takeItem_edited (Z.of_nat r) w) as [_ Hstep].
  eapply rows_edited_trans; [exact Hstep|].
  destruct Hstep as (Hr & _). rewrite <- Hr. apply IH.
Qed.

Lemma remove_selected_edited sel w :
  rows_edited w (remove_selected sel w) (PageList.remove_selected sel (page_list w)).
Proof. apply remove_loop_edited. Qed.

Lemma _trash_from_list_edited sel w :
  rows_edited w (_trash_from_list sel w) (PageList.remove_selected sel (page_list w)).
Proof.
  destruct (remove_loop_edited (reverse (PageList.sorted_rows sel)) w)
    as (Hr & Hi & Hb & Ht).
  unfold _trash_from_list. split_and!; [exact Hr|exact Hi|exact Hb|done].
Qed.

Lemma take_rows_edited (rs : list nat) : ∀ (k : Z) w,
  fst (take_rows k rs w) = fst (PageList.take_rows k rs (page_list w)) ∧
  rows_edited w (snd (take_rows k rs w))
    (snd (PageList.take_rows k rs (page_list w))).
Proof.
  induction rs as [|r rs IH]; intros k w.
  { split; [done|apply rows_edited_refl]. }
  simpl. destruct (takeItem_edited (Z.of_nat r - k) w) as [Hit Hstep].
  destruct (takeItem (Z.of_nat r - k) w) as [it w1].
  destruct (PageList.takeItem (Z.of_nat r - k) (page_list w)) as [it' rows1].
  simpl in Hit, Hstep. subst it'.
  destruct (IH (k + 1) w1) as [Hits Hrest].
  pose proof Hstep as (Hr & _). rewrite Hr in Hits, Hrest.
  destruct (take_rows (k + 1) rs w1) as [its w2].
  destruct (PageList.take_rows (k + 1) rs rows1) as [its' rows2].
  simpl in *. subst its'. split; [done|].
  by eapply rows_edited_trans.
Qed.

Lemma insert_items_edited items : ∀ (insert_at i : Z) w,
  rows_edited w (insert_items insert_at i items w)
    (PageList.insert_items insert_at i items (page_list w)).
Proof.
  induction items as [|it items IH]; intros insert_at i w;
    [apply rows_edited_refl|].
  simpl. pose proof (insertItem_edited (insert_at + i) it w) as Hstep.
  eapply rows_edited_trans; [exact Hstep|].
  destruct Hstep as (Hr & _). rewrite <- Hr. apply IH.
Qed.

Lemma dropEvent_edited t sel w w' :
  dropEvent (Some t) sel w = Some w' →
  PageList.dropEvent (Some t) sel (page_list w) = PageList.Relocated (page_list w') ∧
  rows_edited w w' (page_list w').
Proof.
  unfold dropEvent, PageList.dropEvent.
  destruct (PageList.sorted_rows sel) as [|r rs] eqn:Hrows; [done|].
  destruct (take_rows_edited (r :: rs) 0 w) as [Hits Hrest].
  destruct (take_rows 0 (r :: rs) w) as [its w1].
  destruct (PageList.take_rows 0 (r :: rs) (page_list w)) as [its' rows1].
  simpl in Hits, Hrest. subst its'.
  intros [= <-].
  pose proof (insert_items_edited its
                (t - PageList.removed_before (r :: rs) t) 0 w1) as Hins.
  pose proof Hrest as (Hr & _). rewrite Hr in Hins.
  pose proof Hins as (Hr' & _). split; [by rewrite Hr'|].
  eapply rows_edited_trans; [exact Hrest|]. rewrite Hr'. exact Hins.
Qed.

(** **** What every step keeps *)

Lemma known_item_of p n (i : nat) :
  _count_pages docs p = inr n → (i < Z.to_nat n)%nat →
  text (item_of (mkPageRef (abspath docs p) (Z.of_nat i)))
  = label (data (item_of (mkPageRef (abspath docs p) (Z.of_nat i)))) ∧
  known_page docs (data (item_of (mkPageRef (abspath docs p) (Z.of_nat i)))).
Proof.
  intros Hc Hi. split; [done|]. exists p, n. simpl. split_and!; [done|done|lia..].
Qed.

Lemma pages_of_known paths :
  Forall (λ it, text it = label (data it) ∧ known_page docs (data it))
    (item_of <$> concat (pages_of docs <$> paths)).
Proof.
  apply Forall_fmap, Forall_concat, Forall_fmap, Forall_forall.
  intros p _. simpl. unfold pages_of.
  destruct (_count_pages docs p) as [ex|n] eqn:Hc; [constructor|].
  apply Forall_fmap, Forall_forall. intros i Hi%elem_of_seq.
  apply (known_item_of p n i Hc). lia.
Qed.

Lemma add_pdfs_spec paths w :
  page_list (add_pdfs docs paths w)
  = page_list w ++ (item_of <$> concat (pages_of docs <$> paths)) ∧
  boxes (add_pdfs docs paths w) = boxes w ++ load_errors docs paths ∧
  current_index (add_pdfs docs paths w)
  = (if bool_decide (concat (pages_of docs <$> paths) ≠ []) then 1
     else current_index w) ∧
  (trash_follows_rows w → trash_follows_rows (add_pdfs docs paths w)).
Proof.
  unfold add_pdfs.
  destruct (add_loop_edited paths false w) as (Hr & Hi & Hb & Ht & Ha).
  destruct (add_loop docs paths false w) as [added w1]. simpl in *. subst added.
  destruct (bool_decide (concat (pages_of docs <$> paths) ≠ [])); by split_and!.
Qed.

Lemma well_kept_edited w w' :
  rows_edited w w' (page_list w') →
  (page_list w' ≠ [] → page_list w ≠ []) →
  (∀ it, it ∈ page_list w' → it ∈ page_list w) →
  well_kept docs w → well_kept docs w'.
Proof.
  intros (_ & Hi & _ & Ht) Hne Hsub (Hfollow & Hidx & Hall).
  split_and!; [auto|rewrite Hi; auto|].
  rewrite Forall_forall in Hall |- *. auto.
Qed.

Lemma remove_selected_none sel {B} : PageList.remove_selected sel (@nil B) = [].
Proof. by rewrite remove_selected_remaining. Qed.

Lemma well_kept_removed sel w w' :
  rows_edited w w' (PageList.remove_selected sel (page_list w)) →
  well_kept docs w → well_kept docs w'.
Proof.
  intros Hed. pose proof Hed as (Hr & _). rewrite <- Hr in Hed.
  apply well_kept_edited; [done|..].
  - rewrite Hr. intros Hne Hnil. rewrite Hnil, remove_selected_none in Hne. done.
  - intros it. rewrite Hr, remove_selected_remaining. apply remaining_subset.
Qed.

Lemma well_kept_step w w' : step docs w w' → well_kept docs w → well_kept docs w'.
Proof.
  intros Hstep Hw. destruct Hstep as [paths w|w|sel w|src sel w|t sel w w' Hdrop].
  - destruct Hw as (Hfollow & Hidx & Hall).
    destruct (add_pdfs_spec paths w) as (Hr & _ & Hi & Ht).
    split_and!; [auto| |].
    + rewrite Hi, Hr. case_bool_decide as Hadded; [done|].
      intros Hne. apply Hidx. intros Hnil. apply Hne.
      rewrite Hnil. by rewrite Hadded.
    + rewrite Hr. apply Forall_app. split; [done|apply pages_of_known].
  - by split_and!.
  - apply (well_kept_removed sel w); [apply remove_selected_edited|done].
  - destruct src; [|done].
    apply (well_kept_removed sel w); [apply _trash_from_list_edited|done].
  - destruct (dropEvent_edited t sel w w' Hdrop) as [Hlist Hed].
    assert (Hperm : page_list w' ≡ₚ page_list w)
      by (by eapply dropEvent_any_perm).
    apply (well_kept_edited w w' Hed); [| |done].
    + intros Hne Hnil. rewrite Hnil in Hperm. by apply Permutation_nil_r in Hperm.
    + intros it Hit. by rewrite <- Hperm.
Qed.

Lemma reachable_well_kept w : reachable docs w → well_kept docs w.
Proof.
  unfold reachable. revert w.
  apply (rtc_ind_r (λ w, well_kept docs w) initial).
  - by split_and!.
  - intros w1 w2 _ Hstep IH. by eapply well_kept_step.
Qed.

End WindowFacts.

Section WindowExtras.
Import ExportPipeline MainWindow WindowExamples.

(** X15. Adding a batch of files appends, for each file in turn, one page
    per page of the document in the order of the document, after the pages
    that were there; a file whose count fails is reported in a [Load error]
    box and does not stop the batch, a file without pages adds nothing; the
    editor is shown when at least one page was added. *)
Theorem add_pdfs_appends :
  ∀ (docs : Documents) (paths : list string) (w : window),
    _gather_current_pages (add_pdfs docs paths w)
    = _gather_current_pages w ++ concat (pages_of docs <$> paths) ∧
    page_list (add_pdfs docs paths w)
    = page_list w ++ (item_of <$> concat (pages_of docs <$> paths)) ∧
    boxes (add_pdfs docs paths w) = boxes w ++ load_errors docs paths ∧
    current_index (add_pdfs docs paths w)
    = (if bool_decide (concat (pages_of docs <$> paths) ≠ []) then 1
       else current_index w).
Proof.
  intros docs paths w.
  destruct (add_pdfs_spec docs paths w) as (Hr & Hb & Hi & _).
  split_and!; [|done..].
  unfold _gather_current_pages. rewrite Hr, fmap_app. f_equal.
  rewrite <- list_fmap_compose. apply list_fmap_id.
Qed.

(** X16. However documents are added, pages removed, dropped on the trash
    box or relocated, and the list cleared: the trash box is visible
    exactly when there are pages, the editor is shown whenever there are
    pages, and every item carries a page of a document that was counted,
    with an index below the count and a text that names that page. *)
Theorem window_well_kept :
  ∀ (docs : Documents) (w : window),
    reachable docs w →
    trash_visible w = bool_decide (0 < length (page_list w))%nat ∧
    (page_list w ≠ [] → current_index w = 1) ∧
    Forall (λ it, text it = label (data it) ∧ known_page docs (data it))
      (page_list w).
Proof.
  intros docs w Hreach. by apply reachable_well_kept.
Qed.

(** Two pages added, and then the first one removed. *)
Lemma window_well_kept_witness :
  reachable docs_two (remove_selected {[0%nat]} two_pages) ∧
  trash_visible (remove_selected {[0%nat]} two_pages) = true ∧
  current_index (remove_selected {[0%nat]} two_pages) = 1.
Proof.
  assert (Hreach : reachable docs_two (remove_selected {[0%nat]} two_pages)).
  { eapply rtc_l; [apply (step_add docs_two ["broken.pdf"; "a.pdf"]%string)|].
    eapply rtc_l; [apply (step_remove docs_two {[0%nat]})|]. apply rtc_refl. }
  split; [exact Hreach|].
  destruct (window_well_kept docs_two _ Hreach) as (Hfollow & Hidx & _).
  split.
  - rewrite Hfollow. vm_compute. reflexivity.
  - apply Hidx. vm_compute. discriminate.
Defined.

(** X17. After any such editing, an export asks [pdfseparate] only for
    pages that exist: the extraction of each page of the list names a
    document that was counted and a page number between 1 and its count. *)
Theorem export_asks_for_counted_pages :
  ∀ (docs : Documents) (w : window) (tmpdir : string) (k : nat) (pr : PageRef),
    reachable docs w →
    _gather_current_pages w !! k = Some pr →
    ∃ p n,
      _count_pages docs p = inr n ∧
      1 ≤ page_index pr + 1 ≤ n ∧
      extraction_cmds tmpdir (_gather_current_pages w) !! k
      = Some ["pdfseparate"; "-f"; str (page_index pr + 1);
              "-l"; str (page_index pr + 1); abspath docs p;
              path_join tmpdir (part_name (Z.of_nat k + 1))]%string.
Proof.
  intros docs w tmpdir k pr Hreach Hk.
  destruct (reachable_well_kept docs w Hreach) as (_ & _ & Hall).
  unfold _gather_current_pages in Hk.
  apply list_lookup_fmap_Some in Hk as (it & -> & Hit).
  rewrite Forall_forall in Hall.
  destruct (Hall it) as [_ (p & n & Hc & Hsrc & Hidx)];
    [by eapply list_elem_of_lookup_2|].
  exists p, n. split_and!; [done|lia|lia|].
  rewrite (lookup_extraction_cmds tmpdir _ k (data it)).
  - unfold extraction_cmd, separate_cmd, part_path. by rewrite Hsrc.
  - unfold _gather_current_pages. by rewrite list_lookup_fmap, Hit.
Qed.

(** The second page of the document of two pages. *)
Lemma export_asks_for_counted_pages_witness :
  reachable docs_two two_pages ∧
  _gather_current_pages two_pages !! 1%nat = Some (mkPageRef "/home/kiwi/a.pdf" 1) ∧
  ∃ p n, _count_pages docs_two p = inr n ∧ 1 ≤ 1 + 1 ≤ n.
Proof.
  assert (Hreach : reachable docs_two two_pages).
  { eapply rtc_l; [apply (step_add docs_two ["broken.pdf"; "a.pdf"]%string)|].
    apply rtc_refl. }
  assert (Hk : _gather_current_pages two_pages !! 1%nat
               = Some (mkPageRef "/home/kiwi/a.pdf" 1)) by (vm_compute; reflexivity).
  split_and!; [exact Hreach|exact Hk|].
  destruct (export_asks_for_counted_pages docs_two two_pages ""%string 1
              (mkPageRef "/home/kiwi/a.pdf" 1) Hreach Hk) as (p & n & Hc & Hn & _).
  by exists p, n.
Defined.

(** X18. Removing the selection, with the Delete key or on the trash box,
    changes the rows as [PageList.remove_selected] does and nothing else:
    the stack stays on its page, even when no page is left, no box is
    shown, and the trash box goes on following the rows. *)
Theorem window_remove_selected :
  ∀ (sel : gset nat) (w : window),
    trash_follows_rows w →
    (page_list (remove_selected sel w) = PageList.remaining sel (page_list w) ∧
     current_index (remove_selected sel w) = current_index w ∧
     boxes (remove_selected sel w) = boxes w ∧
     trash_follows_rows (remove_selected sel w)) ∧
    (page_list (TrashBox_dropEvent FromPageList sel w)
     = PageList.remaining sel (page_list w) ∧
     current_index (TrashBox_dropEvent FromPageList sel w) = current_index w ∧
     boxes (TrashBox_dropEvent FromPageList sel w) = boxes w ∧
     trash_follows_rows (TrashBox_dropEvent FromPageList sel w)) ∧
    TrashBox_dropEvent FromElsewhere sel w = w.
Proof.
  intros sel w Hfollow.
  change (TrashBox_dropEvent FromPageList sel w) with (_trash_from_list sel w).
  destruct (remove_selected_edited sel w) as (Hr & Hi & Hb & Ht).
  destruct (_trash_from_list_edited sel w) as (Hr' & Hi' & Hb' & Ht').
  rewrite remove_selected_remaining in Hr, Hr'.
  split_and!; auto.
Qed.

(** Both pages of the window of two pages removed. *)
Lemma window_remove_selected_witness :
  trash_follows_rows two_pages ∧
  page_list (remove_selected {[0%nat; 1%nat]} two_pages) = [] ∧
  current_index (remove_selected {[0%nat; 1%nat]} two_pages) = 1 ∧
  trash_visible (remove_selected {[0%nat; 1%nat]} two_pages) = false.
Proof.
  assert (Hfollow : trash_follows_rows two_pages) by (vm_compute; reflexivity).
  destruct (proj1 (window_remove_selected {[0%nat; 1%nat]} two_pages Hfollow))
    as (Hr & Hi & _ & Ht).
  split_and!; [exact Hfollow|..].
  - rewrite Hr. vm_compute. reflexivity.
  - rewrite Hi. vm_compute. reflexivity.
  - rewrite Ht, Hr. vm_compute. reflexivity.
Defined.

End WindowExtras.
